(** * NERDA: the fine-tuning loop of [src/NERDA/train.py]

    A shallow embedding of [enforce_reproducibility] and [train_model].

    - Python floats are IEEE 754 binary64 values, modelled with the
      Standard Library's executable specification [spec_float].
    - The interpreter state is threaded explicitly: a [World] holds the
      four random generators, the two cuDNN flags, the tensor storage and
      whatever else the collaborators keep; a run also records, in order,
      every call it makes to a collaborator and every line it prints.
    - Python exceptions are results of the monad [M].
    - Tensors live in a store indexed by locations, so that two Python
      references to one tensor are two copies of one location. *)

From Stdlib Require Import ZArith List Bool Lia.
From Stdlib Require Import Floats.SpecFloat.
From stdpp Require Import base gmap strings list.

Open Scope Z_scope.

(** ** Python floats *)

Module PyFloat.

Definition prec : Z := 53.
Definition emax : Z := 1024.

Abbreviation float := spec_float.

(** [np.inf] *)
Definition inf : float := S754_infinity false.
Definition neg_inf : float := S754_infinity true.
Definition nan : float := S754_nan.

(** [x < y] on floats *)
Definition ltb (x y : float) : bool := SFltb x y.
Definition leb (x y : float) : bool := SFleb x y.

Definition is_nan (x : float) : bool :=
  match x with S754_nan => true | _ => false end.

Definition is_finite (x : float) : bool :=
  match x with S754_zero _ | S754_finite _ _ _ => true | _ => false end.

(** [float(z)]: the integer rounded to nearest, ties to even. *)
Definition of_int (z : Z) : float := binary_normalize prec emax z 0 false.

(** [x * y] on floats *)
Definition mul (x y : float) : float := SFmul prec emax x y.

(** The integer [z] as a mantissa with exponent 0, not yet rounded. *)
Definition raw_int (z : Z) : float :=
  match z with
  | Z0 => S754_zero false
  | Zpos p => S754_finite false p 0
  | Zneg p => S754_finite true p 0
  end.

(** The quotient of two integers rounded once, which is what [a / b]
    computes on Python integers. *)
Definition div_int (a b : Z) : float := SFdiv prec emax (raw_int a) (raw_int b).

(** The integer part of a finite float, rounded toward zero. *)
Definition trunc (x : float) : option Z :=
  match x with
  | S754_zero _ => Some 0
  | S754_finite s m e =>
      let a := match e with
               | Zneg k => Z.shiftr (Zpos m) (Zpos k)
               | _ => Z.shiftl (Zpos m) e
               end in
      Some (if s then - a else a)
  | _ => None
  end.

(** A key that orders the floats that are not NaN as [<] does. *)
Definition rank (x : float) : option (Z * Z * Z) :=
  match x with
  | S754_nan => None
  | S754_infinity true => Some (-2, 0, 0)
  | S754_finite true m e => Some (-1, - e, - Zpos m)
  | S754_zero _ => Some (0, 0, 0)
  | S754_finite false m e => Some (1, e, Zpos m)
  | S754_infinity false => Some (2, 0, 0)
  end.

Definition lex_lt (a b : Z * Z * Z) : Prop :=
  a.1.1 < b.1.1 \/
  (a.1.1 = b.1.1 /\ (a.1.2 < b.1.2 \/ (a.1.2 = b.1.2 /\ a.2 < b.2))).

End PyFloat.

Import PyFloat.

Section FloatOrder.

Local Ltac cmp_cases :=
  repeat match goal with
    | |- context [Z.compare ?a ?b] =>
        let H := fresh in destruct (Z.compare_spec a b) as [H|H|H]
    | |- context [Pos.compare_cont Eq ?a ?b] =>
        let H := fresh in
        change (Pos.compare_cont Eq a b) with (Pos.compare a b);
        destruct (Pos.compare_spec a b) as [H|H|H]
    end.

Lemma ltb_rank (x y : float) :
  ltb x y = true <->
  exists a b, rank x = Some a /\ rank y = Some b /\ lex_lt a b.
Proof.
  unfold ltb, SFltb, lex_lt.
  destruct x as [[]|[]| |[] mx ex], y as [[]|[]| |[] my ey]; simpl;
    cmp_cases; simpl; split;
    try discriminate;
    try (intros _; do 2 eexists; split; [reflexivity|split; [reflexivity|simpl; lia]]);
    try (intros (a & b & Ha & Hb & Hl); simplify_eq; simpl in *; lia).
Qed.

Lemma ltb_irrefl (x : float) : ltb x x = false.
Proof.
  destruct (ltb x x) eqn:E; [|done].
  apply ltb_rank in E as (a & b & Ha & Hb & Hl).
  rewrite Ha in Hb. simplify_eq. unfold lex_lt in Hl. lia.
Qed.

Lemma ltb_trans (x y z : float) :
  ltb x y = true -> ltb y z = true -> ltb x z = true.
Proof.
  rewrite !ltb_rank.
  intros (a & b & Ha & Hb & Hab) (b' & c & Hb' & Hc & Hbc).
  rewrite Hb in Hb'. simplify_eq.
  exists a, c. repeat split; try done. unfold lex_lt in *. lia.
Qed.

(** Below a bound and not above it: the one is below the other,
    provided the other is a number. *)
Lemma ltb_below (v b u : float) :
  ltb v b = true -> ltb u b = false -> is_nan u = false -> ltb v u = true.
Proof.
  intros Hvb Hub Hu.
  apply ltb_rank in Hvb as (kv & kb & Hv & Hb & Hl).
  destruct (rank u) as [ku|] eqn:Hku; [|by destruct u as [| [] | |[]]].
  apply ltb_rank. exists kv, ku. repeat split; try done.
  destruct (ltb u b) eqn:E; [done|].
  assert (~ lex_lt ku kb) as Hn.
  { intros Hlt. assert (ltb u b = true); [|congruence].
    apply ltb_rank. eauto. }
  unfold lex_lt in *. lia.
Qed.

Lemma leb_rank (x y : float) :
  leb x y = true <->
  exists a b, rank x = Some a /\ rank y = Some b /\ ~ lex_lt b a.
Proof.
  unfold leb, SFleb, lex_lt.
  destruct x as [[]|[]| |[] mx ex], y as [[]|[]| |[] my ey]; simpl;
    cmp_cases; simpl; split;
    try discriminate;
    try (intros _; do 2 eexists; split; [reflexivity|split; [reflexivity|simpl; lia]]);
    try (intros (a & b & Ha & Hb & Hl); simplify_eq; simpl in *; lia).
Qed.

Lemma rank_is_Some (x : float) : is_nan x = false -> exists a, rank x = Some a.
Proof. destruct x as [| [] | |[]]; simpl; eauto; done. Qed.

(** On numbers, not above is below or equal. *)
Lemma leb_of_not_ltb (b u : float) :
  is_nan b = false -> is_nan u = false -> ltb u b = false -> leb b u = true.
Proof.
  intros [kb Hb]%rank_is_Some [ku Hu]%rank_is_Some Hlt.
  apply leb_rank. exists kb, ku. repeat split; try done.
  intros Hl. assert (ltb u b = true); [|congruence].
  apply ltb_rank. eauto.
Qed.

Lemma ltb_nan_l (y : float) : ltb nan y = false.
Proof. done. Qed.

Lemma ltb_nan_r (x : float) : ltb x nan = false.
Proof. by destruct x as [| [] | |]. Qed.

Lemma ltb_inf_l (y : float) : ltb inf y = false.
Proof. by destruct y as [| [] | |]. Qed.

Lemma ltb_inf_r (x : float) :
  ltb x inf = negb (is_nan x) && negb (match x with S754_infinity false => true | _ => false end).
Proof. by destruct x as [| [] | |]. Qed.

Lemma ltb_neg_inf_l (y : float) :
  ltb neg_inf y = negb (is_nan y) && negb (match y with S754_infinity true => true | _ => false end).
Proof. by destruct y as [| [] | |]. Qed.

End FloatOrder.

(** ** Exceptions *)

Inductive exn :=
| UnboundLocalError (name : string)
| ZeroDivisionError
| OverflowError
| ValueError
| RuntimeError.

Inductive result (A : Type) :=
| Ok (a : A)
| Raise (e : exn).

Arguments Ok {A} a.
Arguments Raise {A} e.

(** ** Tensors, parameters and the optimizer *)

(** A tensor is its storage: a location of the store. *)
Definition loc := positive.

(** The module's table of named parameters, in registration order. The
    buffers of a module, which its state dict holds by reference as it
    holds the parameters, are left out. *)
Record Network := { named_parameters : list (string * loc) }.

(** What [state_dict()] returns: names bound to tensors. *)
Definition StateDict := list (string * loc).

Definition parameters (network : Network) : list loc :=
  (named_parameters network).*2.

Fixpoint dict_get (key : string) (d : list (string * loc)) : option loc :=
  match d with
  | [] => None
  | (k, v) :: d' => if String.eqb k key then Some v else dict_get key d'
  end.

Record param_group := {
  params : list loc;
  weight_decay : option float  (* [None]: the key is not given *)
}.

(** The first argument of the optimizer: an iterable of tensors, or a
    list of groups. *)
Inductive optimizer_parameters :=
| ParamIter (ps : list loc)
| ParamGroups (gs : list param_group).

Record Optimizer := {
  param_groups : list param_group;
  lr : float
}.

(** The optimizer [AdamW(params, lr = lr)] builds once it has accepted
    its arguments ([AdamW_check] below): an iterable of tensors becomes
    one group that states no option of its own; groups are taken as
    given. *)
Definition AdamW (ps : optimizer_parameters) (lr : float) : Optimizer :=
  {| param_groups := match ps with
                     | ParamIter ps => [ {| params := ps; weight_decay := None |} ]
                     | ParamGroups gs => gs
                     end;
     lr := lr |}.

Record Scheduler := {
  sched_optimizer : Optimizer;
  num_warmup_steps : Z;
  num_training_steps : Z
}.

Definition get_linear_schedule_with_warmup
    (optimizer : Optimizer) (num_warmup_steps num_training_steps : Z) : Scheduler :=
  {| sched_optimizer := optimizer;
     num_warmup_steps := num_warmup_steps;
     num_training_steps := num_training_steps |}.

(** ** Strings *)

Fixpoint starts_with (p s : string) : bool :=
  match p, s with
  | EmptyString, _ => true
  | String a p', String b s' => Ascii.eqb a b && starts_with p' s'
  | String _ _, EmptyString => false
  end.

(** [sub in s] *)
Fixpoint str_in (sub s : string) : bool :=
  starts_with sub s ||
  match s with
  | EmptyString => false
  | String _ s' => str_in sub s'
  end.

(** [any(f(x) for x in xs)] *)
Definition any {A} (f : A -> bool) (xs : list A) : bool := existsb f xs.

(** 0.001 and 0.0 *)
Definition float_0_001 : float := S754_finite false 4611686018427388 (-62).
Definition float_0_0 : float := S754_zero false.

(** No tensor of a group is in a group before it. *)
Fixpoint groups_disjoint (seen : list loc) (gs : list param_group) : bool :=
  match gs with
  | [] => true
  | g :: gs' =>
      forallb (fun l => negb (bool_decide (l ∈ seen))) (params g) &&
      groups_disjoint (params g ++ seen) gs'
  end.

(** The checks of [AdamW(params, lr = lr)]: [lr < 0.0], then, in the
    constructor of [torch.optim.Optimizer], an empty [list(params)] and
    a tensor that appears in more than one group. Each one raises
    [ValueError]. *)
Definition AdamW_check (ps : optimizer_parameters) (lr : float) : result unit :=
  if ltb lr float_0_0 then Raise ValueError else
  match ps with
  | ParamIter [] | ParamGroups [] => Raise ValueError
  | ParamIter _ => Ok tt
  | ParamGroups gs => if groups_disjoint [] gs then Ok tt else Raise ValueError
  end.

(** ** What a run does, in order *)

Inductive event :=
| EvTorchManualSeed (seed : Z)
| EvCudaManualSeedAll (seed : Z)
| EvSetCudnnDeterministic (b : bool)
| EvSetCudnnBenchmark (b : bool)
| EvRandomSeed (seed : Z)
| EvNpRandomSeed (seed : Z)
| EvCreateDataloader (max_len batch_size : Z)
| EvAdamW (ps : optimizer_parameters) (lr : float)
| EvSchedule (num_warmup_steps num_training_steps : Z)
| EvPrintEpoch (i n : Z)
| EvTrain (loss : float)
| EvValidate (loss : float)
| EvPrintLosses (train_loss valid_loss : float)
| EvStateDict
| EvLoadStateDict.

(** ** The interpreter state and the collaborators *)

Section Model.

(** What the libraries keep and the model never looks into. *)
Context {Rng Tensor Ext Column TagEncoder Reader Loader Device : Type}.

Record World := mkWorld {
  torch_rng : Rng;               (* torch's CPU generator *)
  cuda_rng : Rng;                (* the generators of all CUDA devices *)
  py_rng : Rng;                  (* the [random] module *)
  np_rng : Rng;                  (* [numpy.random] *)
  cudnn_deterministic : bool;    (* torch.backends.cudnn.deterministic *)
  cudnn_benchmark : bool;        (* torch.backends.cudnn.benchmark *)
  store : gmap loc Tensor;       (* the contents of every live tensor *)
  ext : Ext                      (* the rest: loaders, optimizer moments, ... *)
}.

(** A dataset is a dict; [dataset.get(key)] is a lookup. *)
Definition Dataset : Type := gmap string Column.

(** The functions [train_model] calls and this file does not define.
    Each one is a function of the world it is called in. A call of
    [create_dataloader], [train_] or [validate_] that raises ends the run
    there, since [train_model] catches nothing; such runs are left out:
    the three are taken to return. *)
Class Collaborators := {
  torch_seeded : Z -> Rng;
  cuda_seeded : Z -> Rng;
  py_seeded : Z -> Rng;
  np_seeded : Z -> Rng;
  classes_shape_0 : TagEncoder -> Z;
  create_dataloader :
    option Column -> option Column -> string -> Z -> Z -> TagEncoder ->
    World -> (Reader * Loader) * World;
  reader_len : Reader -> Z;
  train_ :
    Network -> Loader -> Optimizer -> Device -> Scheduler -> Z ->
    World -> float * World;
  validate_ :
    Network -> Loader -> Device -> Z -> World -> float * World
}.

Context `{Collaborators}.

(** ** The run monad: state, exceptions and the record of calls *)

(** A computation takes the world it starts in and gives its result, the
    world it leaves and the calls it made, in order. *)
Definition M (A : Type) : Type := World -> result A * World * list event.

Definition ret {A} (a : A) : M A := fun w => (Ok a, w, []).

Definition bind {A B} (m : M A) (f : A -> M B) : M B :=
  fun w =>
    match m w with
    | (Ok a, w', evs) => let '(r, w'', evs') := f a w' in (r, w'', evs ++ evs')
    | (Raise e, w', evs) => (Raise e, w', evs)
    end.

Definition raise {A} (e : exn) : M A := fun w => (Raise e, w, []).

Definition lift {A} (r : result A) : M A := fun w => (r, w, []).

(** One step on the world, recorded. *)
Definition effect {A} (f : World -> A * World) (ev : A -> event) : M A :=
  fun w => let '(a, w') := f w in (Ok a, w', [ev a]).

Definition record (ev : event) : M unit :=
  effect (fun w => (tt, w)) (fun _ => ev).

(** One step on the world, not recorded. *)
Definition update (f : World -> World) : M unit := fun w => (Ok tt, f w, []).

#[export] Instance M_ret : MRet M := @ret.
#[export] Instance M_bind : MBind M := fun A B f m => bind m f.

Definition outcome {A} (r : result A * World * list event) : result A := r.1.1.
Definition final {A} (r : result A * World * list event) : World := r.1.2.
Definition events {A} (r : result A * World * list event) : list event := r.2.

Fixpoint for_each {A S} (xs : list A) (body : A -> S -> M S) (s : S) : M S :=
  match xs with
  | [] => ret s
  | x :: xs' => s' ← body x s; for_each xs' body s'
  end.

(** ** [enforce_reproducibility] *)

(** The seeds torch takes: what fits a signed or an unsigned integer of
    64 bits. *)
Definition torch_seed_ok (seed : Z) : bool := (- 2 ^ 63 <=? seed) && (seed <? 2 ^ 64).

(** The seeds numpy takes: "Seed must be between 0 and 2**32 - 1". *)
Definition np_seed_ok (seed : Z) : bool := (0 <=? seed) && (seed <? 2 ^ 32).

(** [torch.manual_seed(seed)]: "Overflow when unpacking long" for a
    seed it does not take. *)
Definition torch_manual_seed (seed : Z) : M unit :=
  record (EvTorchManualSeed seed) ;;
  if torch_seed_ok seed then
    update (fun w => mkWorld (torch_seeded seed) (cuda_rng w) (py_rng w) (np_rng w)
                       (cudnn_deterministic w) (cudnn_benchmark w) (store w) (ext w))
  else raise RuntimeError.

(** [torch.cuda.manual_seed_all(seed)], with the seeds of
    [torch.manual_seed]. *)
Definition torch_cuda_manual_seed_all (seed : Z) : M unit :=
  record (EvCudaManualSeedAll seed) ;;
  if torch_seed_ok seed then
    update (fun w => mkWorld (torch_rng w) (cuda_seeded seed) (py_rng w) (np_rng w)
                       (cudnn_deterministic w) (cudnn_benchmark w) (store w) (ext w))
  else raise RuntimeError.

Definition set_cudnn_deterministic (b : bool) : M unit :=
  effect (fun w => (tt, mkWorld (torch_rng w) (cuda_rng w) (py_rng w) (np_rng w)
                          b (cudnn_benchmark w) (store w) (ext w)))
         (fun _ => EvSetCudnnDeterministic b).

Definition set_cudnn_benchmark (b : bool) : M unit :=
  effect (fun w => (tt, mkWorld (torch_rng w) (cuda_rng w) (py_rng w) (np_rng w)
                          (cudnn_deterministic w) b (store w) (ext w)))
         (fun _ => EvSetCudnnBenchmark b).

(** [random.seed(seed)] takes every integer. *)
Definition random_seed (seed : Z) : M unit :=
  effect (fun w => (tt, mkWorld (torch_rng w) (cuda_rng w) (py_seeded seed) (np_rng w)
                          (cudnn_deterministic w) (cudnn_benchmark w) (store w) (ext w)))
         (fun _ => EvRandomSeed seed).

(** [np.random.seed(seed)]: [ValueError] for a seed it does not take. *)
Definition np_random_seed (seed : Z) : M unit :=
  record (EvNpRandomSeed seed) ;;
  if np_seed_ok seed then
    update (fun w => mkWorld (torch_rng w) (cuda_rng w) (py_rng w) (np_seeded seed)
                       (cudnn_deterministic w) (cudnn_benchmark w) (store w) (ext w))
  else raise ValueError.

(** Lines 15-27. *)
Definition enforce_reproducibility (seed : Z) : M unit :=
  torch_manual_seed seed ;;
  torch_cuda_manual_seed_all seed ;;
  set_cudnn_deterministic true ;;
  set_cudnn_benchmark false ;;
  random_seed seed ;;
  np_random_seed seed.

(** ** The calls of [train_model] *)

Definition call_create_dataloader
    (sentences tags : option Column) (bert_model_name : string)
    (max_len batch_size : Z) (tag_encoder : TagEncoder) : M (Reader * Loader) :=
  effect (create_dataloader sentences tags bert_model_name max_len batch_size tag_encoder)
         (fun _ => EvCreateDataloader max_len batch_size).

Definition call_train_
    (network : Network) (dl : Loader) (optimizer : Optimizer) (device : Device)
    (scheduler : Scheduler) (n_tags : Z) : M float :=
  effect (train_ network dl optimizer device scheduler n_tags) EvTrain.

Definition call_validate_
    (network : Network) (dl : Loader) (device : Device) (n_tags : Z) : M float :=
  effect (validate_ network dl device n_tags) EvValidate.

(** Line 109: the call is recorded, the arguments are checked, the
    optimizer is built. *)
Definition call_AdamW (ps : optimizer_parameters) (lr : float) : M Optimizer :=
  record (EvAdamW ps lr) ;;
  lift (AdamW_check ps lr) ;;
  ret (AdamW ps lr).

(** [network.state_dict()]: every name bound to the tensor the module
    holds under it. The tensors are the module's own, not copies. *)
Definition state_dict (network : Network) : M StateDict :=
  record EvStateDict ;; ret (named_parameters network).

(** [param.copy_(input_param)] for every tensor of the module whose
    name is a key of [sd]; the names that are not are reported. A
    location the store does not hold has no content to copy. *)
Fixpoint copy_from (sd : StateDict) (ps : list (string * loc))
    (st : gmap loc Tensor) : gmap loc Tensor * list string :=
  match ps with
  | [] => (st, [])
  | (name, l) :: ps' =>
      match dict_get name sd with
      | Some l' =>
          copy_from sd ps' (match st !! l' with Some v => <[l := v]> st | None => st end)
      | None =>
          let '(st', missing) := copy_from sd ps' st in (st', name :: missing)
      end
  end.

Definition unexpected_keys (sd : StateDict) (ps : list (string * loc)) : list string :=
  filter (fun k => dict_get k ps = None) sd.*1.

(** [network.load_state_dict(sd)], strict. *)
Definition load_state_dict (network : Network) (sd : StateDict) : M unit :=
  fun w =>
    let '(store', missing) := copy_from sd (named_parameters network) (store w) in
    let w' := mkWorld (torch_rng w) (cuda_rng w) (py_rng w) (np_rng w)
                (cudnn_deterministic w) (cudnn_benchmark w) store' (ext w) in
    match missing, unexpected_keys sd (named_parameters network) with
    | [], [] => (Ok tt, w', [EvLoadStateDict])
    | _, _ => (Raise RuntimeError, w', [EvLoadStateDict])
    end.

(** ** [train_model] *)

(** Lines 63-64. *)
Definition seeding (fixed_seed : option Z) : M unit :=
  match fixed_seed with
  | Some seed => enforce_reproducibility seed
  | None => ret tt
  end.

Definition no_decay : list string := ["bias"; "LayerNorm.bias"; "LayerNorm.weight"]%string.

(** Lines 86-105: the first argument of the optimizer. *)
Definition optimizer_parameters_of (network : Network) (custom_weight_decay : bool)
    : optimizer_parameters :=
  if custom_weight_decay then
    let param_optimizer := named_parameters network in
    ParamGroups
      [ {| params := (filter (fun np => negb (any (fun nd => str_in nd np.1) no_decay))
                        param_optimizer).*2;
           weight_decay := Some float_0_001 |};
        {| params := (filter (fun np => any (fun nd => str_in nd np.1) no_decay)
                        param_optimizer).*2;
           weight_decay := Some float_0_0 |} ]
  else ParamIter (parameters network).

(** Line 107: [int(len(dr_train) / train_batch_size * epochs)]. *)
Definition num_train_steps (len_dr_train train_batch_size : Z) (epochs : nat) : result Z :=
  if train_batch_size =? 0 then Raise ZeroDivisionError else
  let q := div_int len_dr_train train_batch_size in
  if negb (is_nan q || is_finite q) then Raise OverflowError else
  let e := of_int (Z.of_nat epochs) in
  if negb (is_nan e || is_finite e) then Raise OverflowError else
  let p := mul q e in
  match trunc p with
  | Some k => Ok k
  | None => Raise (if is_nan p then ValueError else OverflowError)
  end.

(** What the loop is run with. *)
Record prepared := {
  dl_train : Loader;
  dl_validate : Loader;
  optimizer : Optimizer;
  scheduler : Scheduler;
  n_tags : Z
}.

(** Lines 66-112. *)
Definition prepare
    (network : Network) (tag_encoder : TagEncoder)
    (dataset_training dataset_validation : Dataset)
    (bert_model_name : string)
    (max_len train_batch_size validation_batch_size : Z)
    (epochs : nat) (warmup_steps : Z) (custom_weight_decay : bool)
    (learning_rate : float) : M prepared :=
  let n_tags := classes_shape_0 tag_encoder in
  '(dr_train, dl_train) ←
    call_create_dataloader (dataset_training !! "sentences"%string)
      (dataset_training !! "tags"%string)
      bert_model_name max_len train_batch_size tag_encoder;
  '(dr_validate, dl_validate) ←
    call_create_dataloader (dataset_validation !! "sentences"%string)
      (dataset_validation !! "tags"%string)
      bert_model_name max_len validation_batch_size tag_encoder;
  let optimizer_parameters := optimizer_parameters_of network custom_weight_decay in
  num_train_steps ← lift (num_train_steps (reader_len dr_train) train_batch_size epochs);
  optimizer ← call_AdamW optimizer_parameters learning_rate;
  record (EvSchedule warmup_steps num_train_steps) ;;
  let scheduler :=
    get_linear_schedule_with_warmup optimizer warmup_steps num_train_steps in
  ret {| dl_train := dl_train; dl_validate := dl_validate; optimizer := optimizer;
         scheduler := scheduler; n_tags := n_tags |}.

Record loop_vars := {
  losses : list float;
  best_loss : float;
  best_parameters : option StateDict   (* [None]: not yet bound *)
}.

(** Lines 114-115. *)
Definition loop_init : loop_vars :=
  {| losses := []; best_loss := inf; best_parameters := None |}.

(** Lines 119-129: one pass of the loop. *)
Definition epoch_body
    (network : Network) (p : prepared) (device : Device) (epochs : nat)
    (epoch : nat) (lv : loop_vars) : M loop_vars :=
  record (EvPrintEpoch (Z.of_nat epoch + 1) (Z.of_nat epochs)) ;;
  train_loss ← call_train_ network (dl_train p) (optimizer p) device (scheduler p) (n_tags p);
  let losses := losses lv ++ [train_loss] in
  valid_loss ← call_validate_ network (dl_validate p) device (n_tags p);
  record (EvPrintLosses train_loss valid_loss) ;;
  if ltb valid_loss (best_loss lv) then
    best_parameters ← state_dict network;
    ret {| losses := losses; best_loss := valid_loss;
           best_parameters := Some best_parameters |}
  else
    ret {| losses := losses; best_loss := best_loss lv;
           best_parameters := best_parameters lv |}.

(** Lines 114-129: [for epoch in range(epochs)], for a number of epochs
    that is a natural number; the step functions are taken to return. *)
Definition epoch_loop
    (network : Network) (p : prepared) (device : Device) (epochs : nat) : M loop_vars :=
  for_each (seq 0 epochs) (epoch_body network p device epochs) loop_init.

(** Lines 131-134. *)
Definition finalize (network : Network) (lv : loop_vars) : M (Network * list float) :=
  best_parameters ← match best_parameters lv with
                     | Some sd => ret sd
                     | None => raise (UnboundLocalError "best_parameters")
                     end;
  load_state_dict network best_parameters ;;
  ret (network, losses lv).

Definition train_model
    (network : Network) (tag_encoder : TagEncoder)
    (dataset_training dataset_validation : Dataset)
    (bert_model_name : string)
    (max_len train_batch_size validation_batch_size : Z)
    (epochs : nat) (warmup_steps : Z) (custom_weight_decay : bool)
    (learning_rate : float) (device : Device) (fixed_seed : option Z)
    : M (Network * list float) :=
  seeding fixed_seed ;;
  p ← prepare network tag_encoder dataset_training dataset_validation bert_model_name
        max_len train_batch_size validation_batch_size epochs warmup_steps
        custom_weight_decay learning_rate;
  lv ← epoch_loop network p device epochs;
  finalize network lv.

End Model.

Arguments World : clear implicits.
Arguments Collaborators : clear implicits.
Arguments prepared : clear implicits.

(** ** The step count when the batches are whole

    [int(n / b * epochs)] is computed on floats. When [b] divides [n]
    and the numbers stay below [2 ^ 53], every step is exact. *)

Section Exact.

Lemma digits2_log2 (p : positive) : Zpos (digits2_pos p) = Z.log2 (Zpos p) + 1.
Proof.
  induction p as [p IH|p IH|]; simpl digits2_pos.
  - rewrite Pos2Z.inj_succ, IH. simpl Z.log2. destruct p; simpl; lia.
  - rewrite Pos2Z.inj_succ, IH. simpl Z.log2. destruct p; simpl; lia.
  - reflexivity.
Qed.

Lemma iter_pos_nat {A} (f : A -> A) (p : positive) (x : A) :
  SpecFloat.iter_pos f p x = Nat.iter (Pos.to_nat p) f x.
Proof.
  revert x. induction p as [p IH|p IH|]; intros x; simpl SpecFloat.iter_pos.
  - rewrite !IH, Pos2Nat.inj_xI.
    replace (S (2 * Pos.to_nat p))%nat with (Pos.to_nat p + (Pos.to_nat p + 1))%nat by lia.
    by rewrite !Nat.iter_add.
  - rewrite !IH, Pos2Nat.inj_xO.
    replace (2 * Pos.to_nat p)%nat with (Pos.to_nat p + Pos.to_nat p)%nat by lia.
    by rewrite Nat.iter_add.
  - reflexivity.
Qed.

Lemma shr_1_even (z : Z) :
  0 <= z -> z mod 2 = 0 ->
  shr_1 {| shr_m := z; shr_r := false; shr_s := false |}
  = {| shr_m := z / 2; shr_r := false; shr_s := false |}.
Proof.
  intros Hz Hmod. destruct z as [|[p|p|]|]; try lia.
  - done.
  - exfalso. rewrite Pos2Z.inj_xI in Hmod.
    rewrite Z.add_comm, Z.mul_comm, Z.mod_add in Hmod by lia. done.
  - unfold shr_1. simpl orb. f_equal.
    rewrite Pos2Z.inj_xO, Z.mul_comm, Z.div_mul by lia. done.
  - done.
Qed.

Lemma shr_exact (k : nat) (z : Z) :
  0 <= z -> z mod 2 ^ Z.of_nat k = 0 ->
  Nat.iter k shr_1 {| shr_m := z; shr_r := false; shr_s := false |}
  = {| shr_m := z / 2 ^ Z.of_nat k; shr_r := false; shr_s := false |}.
Proof.
  induction k as [|k IH]; intros Hz Hmod.
  - simpl. by rewrite Z.div_1_r.
  - rewrite Nat2Z.inj_succ, Z.pow_succ_r in * by lia.
    apply Z.mod_divide in Hmod as [c ->]; [|lia].
    simpl. rewrite IH.
    + replace (c * (2 * 2 ^ Z.of_nat k)) with ((c * 2) * 2 ^ Z.of_nat k) by lia.
      rewrite Z.div_mul by lia.
      replace (c * 2 * 2 ^ Z.of_nat k) with (c * (2 * 2 ^ Z.of_nat k)) by lia.
      rewrite Z.div_mul by lia.
      rewrite shr_1_even; [by rewrite Z.div_mul by lia| |by rewrite Z.mod_mul by lia].
      assert (0 < 2 ^ Z.of_nat k) by lia. nia.
    + done.
    + replace (c * (2 * 2 ^ Z.of_nat k)) with ((c * 2) * 2 ^ Z.of_nat k) by lia.
      by rewrite Z.mod_mul by lia.
Qed.


Lemma shr_fexp_exact (m : positive) (e : Z) :
  let n := Z.log2 (Zpos m) + 1 - 53 in
  0 <= n -> Zpos m mod 2 ^ n = 0 -> -1074 <= e + n ->
  shr_fexp prec emax (Zpos m) e loc_Exact
  = ({| shr_m := Zpos m / 2 ^ n; shr_r := false; shr_s := false |}, e + n).
Proof.
  intros n Hn Hmod He. unfold shr_fexp.
  change (Zdigits2 (Zpos m)) with (Zpos (digits2_pos m)). rewrite digits2_log2.
  replace (fexp prec emax (Z.log2 (Zpos m) + 1 + e) - e) with n.
  2:{ unfold fexp, emin, prec, emax. lia. }
  unfold shr, shr_record_of_loc. destruct n as [|p|p] eqn:Hp; [| |lia].
  - by rewrite Z.div_1_r, Z.add_0_r.
  - rewrite iter_pos_nat, shr_exact; rewrite ?positive_nat_Z; done.
Qed.

Lemma binary_round_aux_exact (sx : bool) (m : positive) (e : Z) :
  let n := Z.log2 (Zpos m) + 1 - 53 in
  0 <= n -> Zpos m mod 2 ^ n = 0 -> -1074 <= e + n <= 971 ->
  binary_round_aux prec emax sx (Zpos m) e loc_Exact
  = S754_finite sx (Z.to_pos (Zpos m / 2 ^ n)) (e + n).
Proof.
  intros n Hn Hmod He. unfold binary_round_aux.
  rewrite shr_fexp_exact by (fold n; lia || done). fold n.
  apply Z.mod_divide in Hmod as [c Hc]; [|lia].
  assert (0 < 2 ^ n) as Hpow by lia.
  assert (0 < c) as Hcpos by nia.
  rewrite Hc, Z.div_mul by lia.
  destruct c as [|m'|]; try lia.
  cbn [shr_m loc_of_shr_record round_nearest_even].
  assert (Z.log2 (Zpos m') + 1 - 53 = 0) as Hn'.
  { assert (Z.log2 (Zpos m) = n + Z.log2 (Zpos m')) as Hl.
    { rewrite Hc. apply Z.log2_mul_pow2; lia. }
    lia. }
  rewrite shr_fexp_exact; rewrite Hn'; rewrite ?Z.mod_1_r; try lia.
  cbn [shr_m]. rewrite Z.div_1_r, Z.add_0_r.
  unfold emax, prec. destruct (Z.leb_spec (e + n) (1024 - 53)); [done|lia].
Qed.

(** [f] is the float of the integer [x], for [0 < x < 2 ^ 53]. *)
Definition float_of (x : Z) (f : float) : Prop :=
  exists m : positive,
    f = S754_finite false m (Z.log2 x + 1 - 53) /\
    Zpos m = x * 2 ^ (53 - (Z.log2 x + 1)).

Lemma log2_lt_53 (x : Z) : 0 < x < 2 ^ 53 -> 0 <= Z.log2 x < 53.
Proof.
  intros Hx. split; [apply Z.log2_nonneg|].
  apply Z.log2_lt_pow2; lia.
Qed.

(** An integer below [2 ^ 53], shifted left far enough, rounds to itself. *)
Lemma round_int (m : positive) (x j : Z) :
  0 < x < 2 ^ 53 -> 53 - (Z.log2 x + 1) <= j -> j <= 1000 -> Zpos m = x * 2 ^ j ->
  float_of x (binary_round_aux prec emax false (Zpos m) (- j) loc_Exact).
Proof.
  intros Hx Hj Hj' Hm. pose proof (log2_lt_53 x Hx) as Hl.
  assert (Z.log2 (Zpos m) = j + Z.log2 x) as Hlm.
  { rewrite Hm. apply Z.log2_mul_pow2; lia. }
  set (n := Z.log2 (Zpos m) + 1 - 53).
  assert (Zpos m = x * 2 ^ (j - n) * 2 ^ n) as Hsplit.
  { rewrite Hm, <- Z.mul_assoc, <- Z.pow_add_r by lia. f_equal. f_equal. lia. }
  rewrite binary_round_aux_exact; fold n; try lia.
  - assert (0 < x * 2 ^ (j - n)) as Hpos by (apply Z.mul_pos_pos; lia).
    exists (Z.to_pos (x * 2 ^ (j - n))). split.
    + rewrite Hsplit at 1. rewrite Z.div_mul by lia. f_equal. lia.
    + rewrite Z2Pos.id by done. f_equal. f_equal. lia.
  - rewrite Hsplit. apply Z.mod_mul. lia.
Qed.

Lemma float_of_trunc (x : Z) (f : float) :
  0 < x < 2 ^ 53 -> float_of x f -> trunc f = Some x.
Proof.
  intros Hx (m & -> & Hm). pose proof (log2_lt_53 x Hx) as Hl.
  unfold trunc. f_equal.
  destruct (Z.log2 x + 1 - 53) as [|k|k] eqn:He; [| lia |].
  - rewrite Z.shiftl_0_r, Hm. replace (53 - (Z.log2 x + 1)) with 0 by lia. lia.
  - rewrite Z.shiftr_div_pow2 by lia. rewrite Hm.
    replace (53 - (Z.log2 x + 1)) with (Zpos k) by lia.
    apply Z.div_mul. lia.
Qed.

Lemma float_of_finite (x : Z) (f : float) : float_of x f -> is_finite f = true.
Proof. by intros (m & -> & _). Qed.

Lemma shift_pos_pow2 (p d : positive) : Zpos (Pos.iter xO p d) = Zpos p * 2 ^ Zpos d.
Proof.
  rewrite Pos2Nat.inj_iter, <- (positive_nat_Z d).
  induction (Pos.to_nat d) as [|k IH]; simpl nat_rect.
  - simpl. lia.
  - rewrite Pos2Z.inj_xO, IH, Nat2Z.inj_succ, Z.pow_succ_r by lia. lia.
Qed.

Lemma of_int_exact (x : Z) : 0 < x < 2 ^ 53 -> float_of x (of_int x).
Proof.
  intros Hx. pose proof (log2_lt_53 x Hx) as Hl.
  destruct x as [|p|]; try lia.
  unfold of_int, binary_normalize, binary_round.
  rewrite digits2_log2.
  replace (fexp prec emax (Z.log2 (Zpos p) + 1 + 0)) with (Z.log2 (Zpos p) + 1 - 53).
  2:{ unfold fexp, emin, prec, emax. lia. }
  unfold shl_align.
  destruct (Z.log2 (Zpos p) + 1 - 53 - 0) as [|d|d] eqn:Hd; [|lia|].
  - apply (round_int p (Zpos p) 0); lia.
  - replace (Z.log2 (Zpos p) + 1 - 53) with (- Zpos d) by lia.
    apply round_int; try lia. apply shift_pos_pow2.
Qed.

Lemma div_int_exact (q b : Z) :
  0 < q < 2 ^ 53 -> 0 < b -> float_of q (div_int (q * b) b).
Proof.
  intros Hq Hb. pose proof (log2_lt_53 q Hq) as Hl.
  assert (0 < q * b) as Ha by (apply Z.mul_pos_pos; lia).
  destruct (q * b) as [|a|] eqn:Hqb; try lia.
  destruct b as [|b|]; try lia.
  unfold div_int, raw_int, SFdiv, SFdiv_core_binary.
  change (Zdigits2 (Zpos a)) with (Zpos (digits2_pos a)).
  change (Zdigits2 (Zpos b)) with (Zpos (digits2_pos b)).
  rewrite !digits2_log2.
  pose proof (Z.log2_mul_below q (Zpos b) ltac:(lia) ltac:(lia)) as Hlo.
  pose proof (Z.log2_mul_above q (Zpos b) ltac:(lia) ltac:(lia)) as Hhi.
  rewrite Hqb in Hlo, Hhi.
  set (s := 53 - (Z.log2 (Zpos a) - Z.log2 (Zpos b))).
  replace (Z.min (fexp prec emax (Z.log2 (Zpos a) + 1 + 0 - (Z.log2 (Zpos b) + 1 + 0))) (0 - 0))
    with (- s).
  2:{ unfold fexp, emin, prec, emax, s. lia. }
  replace (0 - 0 - - s) with s by lia.
  assert (0 <= s) as Hs by (unfold s; lia).
  assert (match s with
          | 0 => Zpos a
          | Zpos _ => Z.shiftl (Zpos a) s
          | Zneg _ => 0
          end = q * 2 ^ s * Zpos b) as ->.
  { destruct s as [|p|p] eqn:Hsp; try lia.
    rewrite Z.shiftl_mul_pow2 by lia. lia. }
  assert (Z.div_eucl (q * 2 ^ s * Zpos b) (Zpos b) = (q * 2 ^ s, 0)) as ->.
  { rewrite (surjective_pairing (Z.div_eucl _ _)).
    change (fst (Z.div_eucl ?a ?b)) with (a / b).
    change (snd (Z.div_eucl ?a ?b)) with (a mod b).
    by rewrite Z.div_mul, Z.mod_mul by lia. }
  assert (new_location (Zpos b) 0 = loc_Exact) as ->.
  { unfold new_location. by destruct (Z.even _). }
  assert (0 < q * 2 ^ s) as Hpos by (apply Z.mul_pos_pos; lia).
  destruct (q * 2 ^ s) as [|m|] eqn:Hm; try lia.
  simpl xorb. apply round_int; lia.
Qed.

Lemma mul_exact (x y : Z) (f g : float) :
  0 < x -> 0 < y -> x * y < 2 ^ 53 -> float_of x f -> float_of y g ->
  float_of (x * y) (mul f g).
Proof.
  intros Hx Hy Hxy (mx & -> & Hmx) (my & -> & Hmy).
  assert (x < 2 ^ 53 /\ y < 2 ^ 53) as [Hx' Hy'] by nia.
  pose proof (log2_lt_53 x ltac:(lia)) as Hlx.
  pose proof (log2_lt_53 y ltac:(lia)) as Hly.
  pose proof (log2_lt_53 (x * y) ltac:(nia)) as Hlxy.
  pose proof (Z.log2_mul_below x y Hx Hy) as Hlo.
  unfold mul, SFmul. simpl xorb.
  replace (Z.log2 x + 1 - 53 + (Z.log2 y + 1 - 53))
    with (- (53 - (Z.log2 x + 1) + (53 - (Z.log2 y + 1)))) by lia.
  apply round_int; try lia.
  rewrite Pos2Z.inj_mul, Hmx, Hmy, Z.pow_add_r by lia. lia.
Qed.

(** When the batch size divides the number of examples, the step count
    is the number of batches times the number of epochs. *)
Lemma num_train_steps_exact (q b : Z) (epochs : nat) :
  0 <= q < 2 ^ 53 -> 0 < b -> Z.of_nat epochs < 2 ^ 53 -> q * Z.of_nat epochs < 2 ^ 53 ->
  num_train_steps (q * b) b epochs = Ok (q * Z.of_nat epochs).
Proof.
  intros Hq Hb He Hqe. unfold num_train_steps.
  destruct (Z.eqb_spec b 0) as [->|_]; [lia|].
  assert (is_finite (of_int (Z.of_nat epochs)) = true /\
          (Z.of_nat epochs = 0 -> of_int (Z.of_nat epochs) = S754_zero false) /\
          (0 < Z.of_nat epochs -> float_of (Z.of_nat epochs) (of_int (Z.of_nat epochs))))
    as (Hfe & Hze & Hpe).
  { destruct (Z.of_nat epochs) as [|e|] eqn:Hn; try lia.
    - done.
    - pose proof (of_int_exact (Zpos e) ltac:(lia)) as Hf.
      split; [by eapply float_of_finite|]. split; [lia|done]. }
  destruct (Z.eq_dec q 0) as [->|Hq0].
  - rewrite !Z.mul_0_l. destruct b as [|b|]; try lia.
    change (div_int 0 (Zpos b)) with (S754_zero false). simpl is_nan. simpl is_finite.
    simpl negb. cbv iota. rewrite Hfe, orb_true_r. simpl negb. cbv iota.
    destruct (of_int (Z.of_nat epochs)) as [| | |]; try done.
  - pose proof (div_int_exact q b ltac:(lia) Hb) as Hdiv.
    rewrite (float_of_finite _ _ Hdiv), orb_true_r. simpl negb. cbv iota.
    rewrite Hfe, orb_true_r. simpl negb. cbv iota.
    destruct (Z.eq_dec (Z.of_nat epochs) 0) as [H0|H0].
    + rewrite Hze, H0, Z.mul_0_r by done.
      destruct Hdiv as (m & -> & _). done.
    + pose proof (mul_exact q (Z.of_nat epochs) _ _ ltac:(lia) ltac:(lia) Hqe Hdiv
                    (Hpe ltac:(lia))) as Hmul.
      assert (0 < q * Z.of_nat epochs < 2 ^ 53) as Hrange.
      { split; [apply Z.mul_pos_pos; lia|lia]. }
      by rewrite (float_of_trunc _ _ Hrange Hmul).
Qed.

End Exact.

(** ** A small instance, to run the model on

    Tensors hold one integer. A training pass adds one to every
    parameter of the network, in place, draws from torch's generator and
    returns the number drawn as its loss; a validation pass returns the
    next loss of the list the world carries. *)

Module Toy.

Definition Column : Type := list (list string).

Definition W : Type := World Z Z (list float).

Definition step_params (ps : list loc) (st : gmap loc Z) : gmap loc Z :=
  foldr (fun l st => alter (Z.add 1) l st) st ps.

#[global] Instance collaborators
    : Collaborators Z Z (list float) Column (list string) Z unit unit := {|
  torch_seeded seed := seed;
  cuda_seeded seed := seed;
  py_seeded seed := seed;
  np_seeded seed := seed;
  classes_shape_0 enc := Z.of_nat (length enc);
  create_dataloader sentences tags name max_len batch_size enc w :=
    ((match sentences with Some c => Z.of_nat (length c) | None => 0 end, tt), w);
  reader_len r := r;
  train_ network dl opt dev sch n w :=
    (of_int (torch_rng w),
     mkWorld (torch_rng w + 1) (cuda_rng w) (py_rng w) (np_rng w)
       (cudnn_deterministic w) (cudnn_benchmark w)
       (step_params (parameters network) (store w)) (ext w));
  validate_ network dl dev n w :=
    (hd nan (ext w),
     mkWorld (torch_rng w) (cuda_rng w) (py_rng w) (np_rng w)
       (cudnn_deterministic w) (cudnn_benchmark w) (store w) (tl (ext w)))
|}.

Definition network : Network := {| named_parameters := [("fc.weight"%string, 1%positive)] |}.

Definition tag_encoder : list string := ["O"; "B-PER"; "I-PER"]%string.

Definition sentence : list string := ["a"]%string.

(** Ten sentences with their tags. *)
Definition dataset : gmap string Column :=
  {[ "sentences"%string := replicate 10 sentence; "tags"%string := replicate 10 ["O"%string] ]}.

(** A world whose generators are all in state [r], whose one tensor
    holds 0 and whose validation passes will return [vs]. *)
Definition world0 (r : Z) (vs : list float) : W :=
  mkWorld r r r r false true {[ 1%positive := 0 ]} vs.

(** [train_model] on ten sentences, with batches of [train_batch_size]. *)
Definition run_with (train_batch_size : Z) (epochs : nat) (fixed_seed : option Z) (w : W) :=
  train_model network tag_encoder dataset dataset "bert"%string 128 train_batch_size 8
    epochs 0 false (of_int 1) tt fixed_seed w.

Definition run (epochs : nat) (fixed_seed : option Z) (w : W) :=
  run_with 5 epochs fixed_seed w.

(** The values the tensors of [net] hold in [w]. *)
Definition values (net : Network) (w : W) : list (option Z) :=
  (fun l => store w !! l) <$> parameters net.

End Toy.

(** ** Reading the record of calls *)

Definition train_losses_of (evs : list event) : list float :=
  omap (fun ev => match ev with EvTrain l => Some l | _ => None end) evs.

Definition valid_losses_of (evs : list event) : list float :=
  omap (fun ev => match ev with EvValidate l => Some l | _ => None end) evs.

Definition epoch_lines_of (evs : list event) : list (Z * Z) :=
  omap (fun ev => match ev with EvPrintEpoch i n => Some (i, n) | _ => None end) evs.

Definition schedules_of (evs : list event) : list (Z * Z) :=
  omap (fun ev => match ev with EvSchedule a b => Some (a, b) | _ => None end) evs.

Definition is_seed_event (ev : event) : bool :=
  match ev with
  | EvTorchManualSeed _ | EvCudaManualSeedAll _ | EvSetCudnnDeterministic _
  | EvSetCudnnBenchmark _ | EvRandomSeed _ | EvNpRandomSeed _ => true
  | _ => false
  end.

Definition is_capture (ev : event) : bool :=
  match ev with EvStateDict => true | _ => false end.

Definition is_restore (ev : event) : bool :=
  match ev with EvLoadStateDict => true | _ => false end.

(** The calls of one pass of the loop, a capture left aside. *)
Definition pass_events (epochs epoch : nat) (losses : float * float) : list event :=
  [ EvPrintEpoch (Z.of_nat epoch + 1) (Z.of_nat epochs);
    EvTrain losses.1; EvValidate losses.2; EvPrintLosses losses.1 losses.2 ].

(** Filters and projections of a record of calls, pushed to its parts. *)
Ltac events_norm :=
  repeat first
    [ rewrite app_nil_r | rewrite filter_app | rewrite omap_app
    | rewrite filter_cons_False by done | rewrite filter_cons_True by done
    | rewrite filter_nil | progress simpl ].

(** ** Running the monad *)

Section Run.

Context {Rng Tensor Ext Column TagEncoder Reader Loader Device : Type}.
Context `{C : Collaborators Rng Tensor Ext Column TagEncoder Reader Loader Device}.

Local Abbreviation World := (World Rng Tensor Ext).
Local Abbreviation M := (@M Rng Tensor Ext).

Lemma bind_run {A B} (m : M A) (f : A -> M B) (w : World) :
  (m ≫= f) w =
  match m w with
  | (Ok a, w', evs) => let '(r, w'', evs') := f a w' in (r, w'', evs ++ evs')
  | (Raise e, w', evs) => (Raise e, w', evs)
  end.
Proof. reflexivity. Qed.

Lemma bind_Ok {A B} (m : M A) (f : A -> M B) (w w' : World) a evs :
  m w = (Ok a, w', evs) ->
  (m ≫= f) w = (outcome (f a w'), final (f a w'), evs ++ events (f a w')).
Proof. intros Hm. rewrite bind_run, Hm. by destruct (f a w') as [[??]?]. Qed.

Lemma for_each_snoc {A S} (xs : list A) (x : A) (body : A -> S -> M S) (s : S) (w : World) :
  for_each (xs ++ [x]) body s w = (for_each xs body s ≫= body x) w.
Proof.
  revert s w. induction xs as [|y xs IH]; intros s w; simpl.
  - rewrite !bind_run. simpl.
    destruct (body x s w) as [[[s'|e] w'] evs]; simpl; by rewrite ?app_nil_r.
  - rewrite !bind_run. destruct (body y s w) as [[[s'|e] w'] evs]; [|done].
    rewrite IH, bind_run.
    destruct (for_each xs body s' w') as [[[s''|e] w''] evs']; [|done].
    destruct (body x s'' w'') as [[r w3] evs'']. by rewrite app_assoc.
Qed.

(** *** The six steps of the seeder, as one *)

(** The world the seeder leaves when it returns. *)
Definition seeded (seed : Z) (w : World) : World :=
  mkWorld (torch_seeded seed) (cuda_seeded seed) (py_seeded seed) (np_seeded seed)
    true false (store w) (ext w).

(** The world it leaves when numpy refuses the seed, at line 27. *)
Definition seeded_but_numpy (seed : Z) (w : World) : World :=
  mkWorld (torch_seeded seed) (cuda_seeded seed) (py_seeded seed) (np_rng w)
    true false (store w) (ext w).

Definition seeder_result (seed : Z) : result unit :=
  if torch_seed_ok seed then
    if np_seed_ok seed then Ok tt else Raise ValueError
  else Raise RuntimeError.

Definition seeder_world (seed : Z) (w : World) : World :=
  if torch_seed_ok seed then
    if np_seed_ok seed then seeded seed w else seeded_but_numpy seed w
  else w.

(** The calls of the seeder: all six unless the first one raises. *)
Definition seed_events (seed : Z) : list event :=
  if torch_seed_ok seed then
    [ EvTorchManualSeed seed; EvCudaManualSeedAll seed; EvSetCudnnDeterministic true;
      EvSetCudnnBenchmark false; EvRandomSeed seed; EvNpRandomSeed seed ]
  else [ EvTorchManualSeed seed ].

Lemma enforce_reproducibility_run (seed : Z) (w : World) :
  enforce_reproducibility seed w = (seeder_result seed, seeder_world seed w, seed_events seed).
Proof.
  unfold enforce_reproducibility, torch_manual_seed, torch_cuda_manual_seed_all,
    np_random_seed, seeder_result, seeder_world, seed_events.
  rewrite !bind_run. simpl.
  destruct (torch_seed_ok seed); [|reflexivity].
  simpl. rewrite !bind_run. simpl.
  destruct (np_seed_ok seed); reflexivity.
Qed.

(** The seeds numpy takes are seeds torch takes. *)
Lemma np_seed_ok_torch (seed : Z) : np_seed_ok seed = true -> torch_seed_ok seed = true.
Proof. unfold np_seed_ok, torch_seed_ok. lia. Qed.

Lemma seeder_result_Ok (seed : Z) : seeder_result seed = Ok tt <-> np_seed_ok seed = true.
Proof.
  unfold seeder_result. split.
  - destruct (torch_seed_ok seed); [|done]. by destruct (np_seed_ok seed).
  - intros Hn. by rewrite (np_seed_ok_torch seed Hn), Hn.
Qed.

(** *** One pass of the loop *)

Section Pass.

Variables (network : Network) (p : prepared Loader) (device : Device) (epochs : nat).

(** The world after the training pass, and after the validation pass. *)
Definition trained (w : World) : float * World :=
  train_ network (dl_train p) (optimizer p) device (scheduler p) (n_tags p) w.

Definition validated (w : World) : float * World :=
  validate_ network (dl_validate p) device (n_tags p) (trained w).2.

Definition pass_losses (w : World) : float * float :=
  ((trained w).1, (validated w).1).

Lemma epoch_body_run (epoch : nat) (lv : loop_vars) (w : World) :
  epoch_body network p device epochs epoch lv w =
  let tv := pass_losses w in
  if ltb tv.2 (best_loss lv) then
    (Ok {| losses := losses lv ++ [tv.1]; best_loss := tv.2;
           best_parameters := Some (named_parameters network) |},
     (validated w).2, pass_events epochs epoch tv ++ [EvStateDict])
  else
    (Ok {| losses := losses lv ++ [tv.1]; best_loss := best_loss lv;
           best_parameters := best_parameters lv |},
     (validated w).2, pass_events epochs epoch tv).
Proof.
  unfold epoch_body, pass_losses, validated, trained, call_train_, call_validate_,
    state_dict, record, effect.
  rewrite !bind_run. simpl.
  destruct (train_ _ _ _ _ _ _ w) as [tl w1]. simpl.
  rewrite !bind_run. simpl.
  destruct (validate_ _ _ _ _ w1) as [vl w2]. simpl.
  rewrite !bind_run. simpl.
  by destruct (ltb vl (best_loss lv)).
Qed.

(** The first [k] passes of the loop. *)
Definition epochs_upto (k : nat) : M loop_vars :=
  for_each (seq 0 k) (epoch_body network p device epochs) loop_init.

Lemma epoch_loop_upto : epoch_loop network p device epochs = epochs_upto epochs.
Proof. reflexivity. Qed.

Lemma epochs_upto_S (k : nat) (w : World) :
  epochs_upto (S k) w =
  (epochs_upto k ≫= epoch_body network p device epochs k) w.
Proof. unfold epochs_upto. by rewrite seq_S, for_each_snoc. Qed.

(** The loop rule: what holds before the first pass and is kept by
    every pass holds after [k] passes, and the loop does not raise. *)
Lemma epochs_upto_rule (P : nat -> loop_vars -> World -> list event -> Prop) (w : World) :
  P 0%nat loop_init w [] ->
  (forall k lv w' evs lv' w'' evs',
      P k lv w' evs ->
      epoch_body network p device epochs k lv w' = (Ok lv', w'', evs') ->
      P (S k) lv' w'' (evs ++ evs')) ->
  forall k, exists lv w' evs,
    epochs_upto k w = (Ok lv, w', evs) /\ P k lv w' evs.
Proof.
  intros H0 HS. induction k as [|k (lv & w' & evs & Hrun & HP)].
  - by exists loop_init, w, [].
  - rewrite epochs_upto_S.
    destruct (epoch_body network p device epochs k lv w') as [[r w''] evs'] eqn:Hb.
    assert (exists lv', r = Ok lv') as [lv' ->].
    { rewrite epoch_body_run in Hb. simpl in Hb.
      destruct (ltb _ _); injection Hb as <- _ _; eauto. }
    exists lv', w'', (evs ++ evs'). split; [|by eapply HS].
    rewrite (bind_Ok _ _ _ _ _ _ Hrun), Hb. reflexivity.
Qed.

Local Abbreviation body := (epoch_body network p device epochs).
Local Abbreviation upto := epochs_upto.

(** The loop rule, for a run that is given. *)
Lemma epochs_upto_inv (P : nat -> loop_vars -> World -> list event -> Prop) (w : World) :
  P 0%nat loop_init w [] ->
  (forall k lv w' evs lv' w'' evs',
      P k lv w' evs ->
      body k lv w' = (Ok lv', w'', evs') ->
      P (S k) lv' w'' (evs ++ evs')) ->
  forall k lv w' evs, upto k w = (Ok lv, w', evs) -> P k lv w' evs.
Proof.
  intros H0 HS k lv w' evs Hrun.
  destruct (epochs_upto_rule P w H0 HS k)
    as (lv0 & w0 & evs0 & Hrun0 & HP).
  rewrite Hrun in Hrun0. by injection Hrun0 as <- <- <-.
Qed.

(** What one pass does to the variables of the loop and what it records. *)
Lemma epoch_body_Ok (k : nat) (lv lv' : loop_vars) (w w' : World) (evs : list event) :
  body k lv w = (Ok lv', w', evs) ->
  let tv := pass_losses w in
  w' = (validated w).2 /\
  losses lv' = losses lv ++ [tv.1] /\
  (if ltb tv.2 (best_loss lv)
   then best_loss lv' = tv.2 /\
        best_parameters lv' = Some (named_parameters network) /\
        evs = pass_events epochs k tv ++ [EvStateDict]
   else best_loss lv' = best_loss lv /\
        best_parameters lv' = best_parameters lv /\
        evs = pass_events epochs k tv).
Proof.
  rewrite epoch_body_run. simpl.
  destruct (ltb _ _); intros [= <- <- <-]; simpl; auto.
Qed.

Lemma pass_events_train k tv : train_losses_of (pass_events epochs k tv) = [tv.1].
Proof. reflexivity. Qed.

Lemma pass_events_valid k tv : valid_losses_of (pass_events epochs k tv) = [tv.2].
Proof. reflexivity. Qed.

Lemma pass_events_no_capture k tv :
  filter (fun ev => is_capture ev = false) (pass_events epochs k tv) = pass_events epochs k tv.
Proof. reflexivity. Qed.

(** The losses a pass records, with or without a capture after them. *)
Lemma epoch_body_losses (k : nat) (lv lv' : loop_vars) (w w' : World) (evs : list event) :
  body k lv w = (Ok lv', w', evs) ->
  let tv := pass_losses w in
  train_losses_of evs = [tv.1] /\ valid_losses_of evs = [tv.2] /\
  filter (fun ev => is_capture ev = false) evs = pass_events epochs k tv /\
  filter (fun ev => is_seed_event ev = true) evs = [] /\
  filter (fun ev => is_restore ev = true) evs = [].
Proof.
  intros Hb tv. apply epoch_body_Ok in Hb as (_ & _ & Hb). fold tv in Hb.
  destruct (ltb tv.2 (best_loss lv)); destruct Hb as (_ & _ & ->);
    unfold train_losses_of, valid_losses_of;
    rewrite ?omap_app, ?filter_app; auto.
Qed.

Lemma epoch_body_lines (k : nat) (lv lv' : loop_vars) (w w' : World) (evs : list event) :
  body k lv w = (Ok lv', w', evs) ->
  epoch_lines_of evs = [(Z.of_nat k + 1, Z.of_nat epochs)].
Proof.
  intros Hb. apply epoch_body_Ok in Hb as (_ & _ & Hb).
  destruct (ltb _ _); destruct Hb as (_ & _ & ->); unfold epoch_lines_of;
    rewrite ?omap_app; auto.
Qed.

(** C7. The loop of [train_model] makes exactly [epochs] passes and then
    ends normally: whatever the losses are, its calls are, pass after
    pass for the epochs 0, ..., [epochs] - 1 in this order, the line
    "Epoch i+1 / epochs", one training pass, one validation pass and
    the line of the two losses (and a capture of the parameters where
    the validation loss improved). No pass is left out, repeated or
    cut short. *)
Theorem epoch_loop_runs_exactly_epochs (w : World) :
  exists lv w' evs tvs,
    epoch_loop network p device epochs w = (Ok lv, w', evs) /\
    length tvs = epochs /\
    filter (fun ev => is_capture ev = false) evs =
      concat (imap (pass_events epochs) tvs) /\
    epoch_lines_of evs =
      (fun i : nat => (Z.of_nat i + 1, Z.of_nat epochs)) <$> seq 0 epochs.
Proof.
  rewrite epoch_loop_upto.
  destruct (epochs_upto_rule
    (fun k _ _ evs =>
       (exists tvs, length tvs = k /\
          filter (fun ev => is_capture ev = false) evs
            = concat (imap (pass_events epochs) tvs)) /\
       epoch_lines_of evs = (fun i : nat => (Z.of_nat i + 1, Z.of_nat epochs)) <$> seq 0 k)
    w) with (k := epochs) as (lv & w' & evs & Hrun & (tvs & Hlen & Hevs) & Hlines).
  - split; [by exists []|done].
  - intros k lv w' evs lv' w'' evs' [(tvs & Hlen & Hevs) Hlines] Hb.
    pose proof (epoch_body_lines _ _ _ _ _ _ Hb) as Hl.
    apply epoch_body_losses in Hb as (_ & _ & Hb & _).
    split.
    + exists (tvs ++ [pass_losses w']). split.
      * rewrite length_app. simpl. lia.
      * rewrite filter_app, Hevs, Hb, imap_app, concat_app. simpl.
        by rewrite Hlen, Nat.add_0_r.
    + unfold epoch_lines_of in *. by rewrite omap_app, Hlines, Hl, seq_S, fmap_app.
  - by exists lv, w', evs, tvs.
Qed.

(** The list of losses is the list of what the training passes returned. *)
Lemma epochs_upto_losses (w : World) (k : nat) lv w' evs :
  upto k w = (Ok lv, w', evs) ->
  losses lv = train_losses_of evs /\ length (losses lv) = k /\
  filter (fun ev => is_seed_event ev = true) evs = [] /\
  filter (fun ev => is_restore ev = true) evs = [].
Proof.
  revert k lv w' evs. apply epochs_upto_inv; [done|].
  intros k lv w' evs lv' w'' evs' (Hl & Hn & Hs & Hr) Hb.
  pose proof (epoch_body_Ok _ _ _ _ _ _ Hb) as (_ & Hl' & _).
  apply epoch_body_losses in Hb as (Ht & _ & _ & Hs' & Hr').
  unfold train_losses_of in *.
  rewrite Hl', omap_app, !filter_app, Ht, Hl, Hs, Hs', Hr, Hr', length_app, <- Hl, Hn.
  simpl. repeat split; auto. lia.
Qed.

(** *** The best loss *)

(** After [k] passes the best loss is a number, it is [inf] or a loss
    seen, and no loss seen is below it. *)
Lemma epochs_upto_best (w : World) (k : nat) lv w' evs :
  upto k w = (Ok lv, w', evs) ->
  is_nan (best_loss lv) = false /\
  best_loss lv ∈ inf :: valid_losses_of evs /\
  (forall u, u ∈ valid_losses_of evs -> ltb u (best_loss lv) = false) /\
  (best_parameters lv = None -> best_loss lv = inf) /\
  (forall sd, best_parameters lv = Some sd -> sd = named_parameters network).
Proof.
  revert k lv w' evs. apply epochs_upto_inv.
  - repeat split; try done. { by apply elem_of_cons; left. } intros u Hu. by apply elem_of_nil in Hu.
  - intros k lv w' evs lv' w'' evs' (Hnan & Hin & Hmin & Hnone & Hsome) Hb.
    pose proof (epoch_body_Ok _ _ _ _ _ _ Hb) as (_ & _ & Hup).
    apply epoch_body_losses in Hb as (_ & Hv & _).
    unfold valid_losses_of in *. rewrite omap_app, Hv.
    set (v := (pass_losses w').2) in *.
    destruct (ltb v (best_loss lv)) eqn:Hlt.
    + destruct Hup as (-> & -> & _). repeat split.
      * destruct v as [| | |]; try done.
      * apply elem_of_cons. right. apply elem_of_app. right. by apply list_elem_of_singleton.
      * intros u [Hu| ->%list_elem_of_singleton]%elem_of_app; [|apply ltb_irrefl].
        specialize (Hmin u Hu). destruct (ltb u v) eqn:Huv; [|done].
        by rewrite (ltb_trans _ _ _ Huv Hlt) in Hmin.
      * done.
      * by intros sd [= <-].
    + destruct Hup as (-> & -> & _). repeat split; auto.
      * apply elem_of_cons in Hin as [Hin|Hin]; apply elem_of_cons; [by left|right].
        apply elem_of_app. by left.
      * intros u [Hu| ->%list_elem_of_singleton]%elem_of_app; auto.
Qed.

(** The loop does not raise. *)
Lemma epochs_upto_total (w : World) (k : nat) :
  exists lv w' evs, upto k w = (Ok lv, w', evs).
Proof.
  destruct (epochs_upto_rule (fun _ _ _ _ => True) w I
              (fun _ _ _ _ _ _ _ _ _ => I) k) as (lv & w' & evs & Hrun & _).
  by exists lv, w', evs.
Qed.

Lemma epoch_body_total (k : nat) (lv : loop_vars) (w : World) :
  exists lv' w' evs, body k lv w = (Ok lv', w', evs).
Proof. rewrite epoch_body_run. simpl. destruct (ltb _ _); eauto. Qed.

(** C4, as amended. The best loss is [inf] before the first pass.
    After any number of passes it is a number, it is [inf] or one of
    the validation losses seen so far, and it is below or equal to
    every validation loss seen so far that is a number: it is their
    minimum, a NaN loss left aside. The next pass changes it at most
    once: exactly when its validation loss is below [inf] and below
    every loss seen before that is a number; the pass then records
    that loss and captures the parameters, once. Otherwise the loss
    and the capture are kept and nothing is captured. *)
Theorem best_loss_is_least_number_seen (w : World) (k : nat) :
  exists lv w1 evs lv' w2 evs',
    upto k w = (Ok lv, w1, evs) /\
    body k lv w1 = (Ok lv', w2, evs') /\
    let seen := valid_losses_of evs in
    let v := (pass_losses w1).2 in
    (k = 0%nat -> best_loss lv = inf) /\
    valid_losses_of evs' = [v] /\
    is_nan (best_loss lv) = false /\
    best_loss lv ∈ inf :: seen /\
    (forall u, u ∈ seen -> is_nan u = false -> leb (best_loss lv) u = true) /\
    (ltb v (best_loss lv) = true <->
       ltb v inf = true /\
       forall u, u ∈ seen -> is_nan u = false -> ltb v u = true) /\
    (if ltb v (best_loss lv)
     then best_loss lv' = v /\
          best_parameters lv' = Some (named_parameters network) /\
          filter (fun ev => is_capture ev = true) evs' = [EvStateDict]
     else best_loss lv' = best_loss lv /\
          best_parameters lv' = best_parameters lv /\
          filter (fun ev => is_capture ev = true) evs' = []).
Proof.
  destruct (epochs_upto_total w k) as (lv & w1 & evs & Hrun).
  destruct (epoch_body_total k lv w1) as (lv' & w2 & evs' & Hb).
  exists lv, w1, evs, lv', w2, evs'. do 2 (split; [done|]).
  pose proof (epochs_upto_best _ _ _ _ _ Hrun) as (Hnan & Hin & Hmin & _).
  pose proof (epoch_body_Ok _ _ _ _ _ _ Hb) as (_ & _ & Hup).
  pose proof (epoch_body_losses _ _ _ _ _ _ Hb) as (_ & Hv & _).
  simpl. split_and!.
  - intros ->. by injection Hrun as <- _ _.
  - done.
  - done.
  - done.
  - intros u Hu Hun. apply leb_of_not_ltb; auto.
  - split.
    + intros Hlt. split; [eapply ltb_below; [done|apply ltb_inf_l|done]|].
      intros u Hu Hun. eapply ltb_below; [done|by apply Hmin|done].
    + intros [Hinf Hall].
      apply elem_of_cons in Hin as [->|Hin]; [done|]. by apply Hall.
  - destruct (ltb _ _); destruct Hup as (? & ? & ->); split_and!; auto.
Qed.

(** C9, as amended. A validation loss that is not finite raises
    nothing. When it is NaN or +infinity it is not below the best
    loss, whatever that is, on the first pass as on a later one: the
    best loss and the captured parameters stay as they were. When it
    is -infinity it is below every best loss other than -infinity: it
    becomes the best loss and the parameters are captured. *)
Theorem non_finite_validation_loss (epoch : nat) (lv : loop_vars) (w : World) :
  let v := (pass_losses w).2 in
  is_finite v = false ->
  exists lv' w' evs,
    body epoch lv w = (Ok lv', w', evs) /\
    valid_losses_of evs = [v] /\
    (v = nan \/ v = inf \/ v = neg_inf) /\
    (v = nan \/ v = inf ->
       best_loss lv' = best_loss lv /\
       best_parameters lv' = best_parameters lv /\
       filter (fun ev => is_capture ev = true) evs = []) /\
    (v = neg_inf -> is_nan (best_loss lv) = false -> best_loss lv <> neg_inf ->
       best_loss lv' = neg_inf /\
       best_parameters lv' = Some (named_parameters network) /\
       filter (fun ev => is_capture ev = true) evs = [EvStateDict]).
Proof.
  intros v Hv.
  destruct (epoch_body_total epoch lv w) as (lv' & w' & evs & Hb).
  exists lv', w', evs. split; [done|].
  pose proof (epoch_body_Ok _ _ _ _ _ _ Hb) as (_ & _ & Hup).
  pose proof (epoch_body_losses _ _ _ _ _ _ Hb) as (_ & Hvs & _).
  fold v in Hup, Hvs. split_and!.
  - done.
  - destruct v as [|[]| |]; try done; auto.
  - intros Hv'. assert (ltb v (best_loss lv) = false) as Hlt.
    { destruct Hv' as [->| ->]; [apply ltb_nan_l|apply ltb_inf_l]. }
    rewrite Hlt in Hup. by destruct Hup as (? & ? & ->).
  - intros Hv' Hnan Hne. assert (ltb v (best_loss lv) = true) as Hlt.
    { rewrite Hv', ltb_neg_inf_l, Hnan. by destruct (best_loss lv) as [|[]| |]. }
    rewrite Hlt in Hup. destruct Hup as (? & ? & ->). split_and!; [congruence|done|done].
Qed.

(** *** Which passes capture *)

(** The best loss and the number of captures, followed on the
    validation losses alone. *)
Definition track (st : float * nat) (v : float) : float * nat :=
  if ltb v st.1 then (v, S st.2) else st.

(** Every loss is below the one before it, the first below [b]. *)
Fixpoint descending (b : float) (vs : list float) : bool :=
  match vs with
  | [] => true
  | v :: vs' => ltb v b && descending v vs'
  end.

Lemma epochs_upto_track (w : World) (k : nat) lv w' evs :
  upto k w = (Ok lv, w', evs) ->
  (best_loss lv, length (filter (fun ev => is_capture ev = true) evs))
    = foldl track (inf, 0%nat) (valid_losses_of evs) /\
  length (valid_losses_of evs) = k.
Proof.
  revert k lv w' evs. apply epochs_upto_inv; [done|].
  intros k lv w' evs lv' w'' evs' [IH Hk] Hb.
  pose proof (epoch_body_Ok _ _ _ _ _ _ Hb) as (_ & _ & Hup).
  apply epoch_body_losses in Hb as (_ & Hv & _).
  unfold valid_losses_of in *.
  rewrite omap_app, Hv, foldl_snoc, <- IH, filter_app, !length_app, Hk.
  split; [|simpl; lia].
  unfold track. simpl.
  destruct (ltb _ _); destruct Hup as (-> & _ & ->).
  - rewrite filter_app, length_app. simpl. f_equal. lia.
  - simpl. f_equal. lia.
Qed.

Lemma track_kept (b : float) (c : nat) (vs : list float) :
  (forall u, u ∈ vs -> ltb u b = false) -> foldl track (b, c) vs = (b, c).
Proof.
  induction vs as [|v vs IH]; intros Hall; [done|]. simpl.
  unfold track at 2. simpl. rewrite Hall by apply list_elem_of_here.
  apply IH. intros u Hu. by apply Hall, list_elem_of_further.
Qed.

Lemma track_descending (b : float) (c : nat) (vs : list float) :
  descending b vs = true ->
  foldl track (b, c) vs = (default b (last vs), (c + length vs)%nat).
Proof.
  revert b c. induction vs as [|v vs IH]; intros b c Hd; simpl in *.
  - f_equal. lia.
  - apply andb_prop in Hd as [Hv Hd]. unfold track at 2. simpl. rewrite Hv.
    rewrite IH by done. f_equal; [|lia]. rewrite last_cons. by destruct (last vs).
Qed.

Lemma only_captures (evs : list event) (n : nat) :
  length (filter (fun ev => is_capture ev = true) evs) = n ->
  filter (fun ev => is_capture ev = true) evs = replicate n EvStateDict.
Proof.
  intros <-. induction evs as [|ev evs IH]; [done|].
  rewrite filter_cons. destruct (decide (is_capture ev = true)) as [Hc|Hc]; [|done].
  simpl. rewrite <- IH. by destruct ev.
Qed.

(** X5. When the first validation loss is below [inf] and no later
    validation loss is below the first, the parameters are captured
    once, after the first pass, and never again: the best loss is the
    first loss to the end. A later loss equal to the first one does not
    capture: on a tie the earliest epoch is kept. *)
Theorem first_epoch_kept_when_never_beaten
    (w : World) lv w' evs (v0 : float) (rest : list float) :
  epoch_loop network p device epochs w = (Ok lv, w', evs) ->
  valid_losses_of evs = v0 :: rest ->
  ltb v0 inf = true ->
  (forall u, u ∈ rest -> ltb u v0 = false) ->
  best_loss lv = v0 /\
  best_parameters lv = Some (named_parameters network) /\
  filter (fun ev => is_capture ev = true) evs = [EvStateDict].
Proof.
  rewrite epoch_loop_upto. intros Hrun Hvs Hv0 Hrest.
  pose proof (epochs_upto_track _ _ _ _ _ Hrun) as [Htr _].
  pose proof (epochs_upto_best _ _ _ _ _ Hrun) as (_ & _ & _ & Hnone & Hsome).
  rewrite Hvs in Htr. simpl in Htr. unfold track at 2 in Htr. simpl in Htr.
  rewrite Hv0, track_kept in Htr by done. injection Htr as Hb Hn.
  split_and!; [done| |by apply (only_captures _ 1)].
  destruct (best_parameters lv) as [sd|].
  - by rewrite (Hsome sd).
  - specialize (Hnone eq_refl). by rewrite <- Hb, Hnone, ltb_irrefl in Hv0.
Qed.

(** X6. When every validation loss is below the one of the epoch
    before (the first one below [inf]), every pass captures the
    parameters: [state_dict] is called [epochs] times and the best loss
    is the last validation loss. *)
Theorem every_epoch_captures_when_descending (w : World) lv w' evs :
  epoch_loop network p device epochs w = (Ok lv, w', evs) ->
  descending inf (valid_losses_of evs) = true ->
  filter (fun ev => is_capture ev = true) evs = replicate epochs EvStateDict /\
  best_loss lv = default inf (last (valid_losses_of evs)).
Proof.
  rewrite epoch_loop_upto. intros Hrun Hd.
  pose proof (epochs_upto_track _ _ _ _ _ Hrun) as [Htr Hk].
  rewrite track_descending in Htr by done. injection Htr as Hb Hn.
  split; [|done]. apply only_captures. rewrite Hn, Hk. done.
Qed.

End Pass.

(** *** The stages of [train_model] *)

(** The world of a run after lines 63-64, when they return. *)
Definition seeding_world (fixed_seed : option Z) (w : World) : World :=
  match fixed_seed with Some seed => seeded seed w | None => w end.

Definition seeding_events (fixed_seed : option Z) : list event :=
  match fixed_seed with Some seed => seed_events seed | None => [] end.

Definition seeding_result (fixed_seed : option Z) : result unit :=
  match fixed_seed with Some seed => seeder_result seed | None => Ok tt end.

(** The world after lines 63-64, whether they return or raise. *)
Definition seeding_final (fixed_seed : option Z) (w : World) : World :=
  match fixed_seed with Some seed => seeder_world seed w | None => w end.

Lemma seeding_run (fixed_seed : option Z) (w : World) :
  seeding fixed_seed w =
    (seeding_result fixed_seed, seeding_final fixed_seed w, seeding_events fixed_seed).
Proof. destruct fixed_seed as [seed|]; [apply enforce_reproducibility_run|done]. Qed.

Lemma seeding_final_Ok (fixed_seed : option Z) (w : World) :
  seeding_result fixed_seed = Ok tt ->
  seeding_final fixed_seed w = seeding_world fixed_seed w.
Proof.
  destruct fixed_seed as [seed|]; [|done]. simpl.
  intros Hn%seeder_result_Ok. unfold seeder_world.
  by rewrite (np_seed_ok_torch seed Hn), Hn.
Qed.

Lemma seeding_run_Ok (fixed_seed : option Z) (w : World) :
  seeding_result fixed_seed = Ok tt ->
  seeding fixed_seed w = (Ok tt, seeding_world fixed_seed w, seeding_events fixed_seed).
Proof. intros Hs. by rewrite seeding_run, Hs, seeding_final_Ok. Qed.

Section Stages.

Variables (network : Network) (tag_encoder : TagEncoder)
  (dataset_training dataset_validation : gmap string Column)
  (bert_model_name : string)
  (max_len train_batch_size validation_batch_size : Z)
  (epochs : nat) (warmup_steps : Z) (custom_weight_decay : bool)
  (learning_rate : float) (device : Device).

(** The two calls of [create_dataloader], the second in the world the
    first has left. *)
Definition loaded_train (w : World) : (Reader * Loader) * World :=
  create_dataloader (dataset_training !! "sentences"%string)
    (dataset_training !! "tags"%string)
    bert_model_name max_len train_batch_size tag_encoder w.

Definition loaded_validate (w : World) : (Reader * Loader) * World :=
  create_dataloader (dataset_validation !! "sentences"%string)
    (dataset_validation !! "tags"%string)
    bert_model_name max_len validation_batch_size tag_encoder (loaded_train w).2.

Definition prepared_with (w : World) (steps : Z) : prepared Loader :=
  let optimizer :=
    AdamW (optimizer_parameters_of network custom_weight_decay) learning_rate in
  {| dl_train := (loaded_train w).1.2;
     dl_validate := (loaded_validate w).1.2;
     optimizer := optimizer;
     scheduler := get_linear_schedule_with_warmup optimizer warmup_steps steps;
     n_tags := classes_shape_0 tag_encoder |}.

Definition loader_events : list event :=
  [ EvCreateDataloader max_len train_batch_size;
    EvCreateDataloader max_len validation_batch_size ].

Definition setup_events (steps : Z) : list event :=
  [ EvAdamW (optimizer_parameters_of network custom_weight_decay) learning_rate;
    EvSchedule warmup_steps steps ].

Lemma prepare_run (w : World) :
  prepare network tag_encoder dataset_training dataset_validation bert_model_name
    max_len train_batch_size validation_batch_size epochs warmup_steps
    custom_weight_decay learning_rate w =
  match num_train_steps (reader_len (loaded_train w).1.1) train_batch_size epochs with
  | Ok steps =>
      match AdamW_check (optimizer_parameters_of network custom_weight_decay)
              learning_rate with
      | Ok _ =>
          (Ok (prepared_with w steps), (loaded_validate w).2,
           loader_events ++ setup_events steps)
      | Raise e =>
          (Raise e, (loaded_validate w).2,
           loader_events ++
           [EvAdamW (optimizer_parameters_of network custom_weight_decay) learning_rate])
      end
  | Raise e => (Raise e, (loaded_validate w).2, loader_events)
  end.
Proof.
  unfold prepare, prepared_with, loaded_validate, loaded_train, call_create_dataloader,
    call_AdamW, record, effect, lift.
  rewrite !bind_run.
  destruct (create_dataloader _ _ _ _ train_batch_size _ w) as [[dr dl] w1]. simpl.
  rewrite !bind_run.
  destruct (create_dataloader _ _ _ _ validation_batch_size _ w1) as [[dr' dl'] w2]. simpl.
  destruct (num_train_steps _ _ _) as [steps|e]; [|done]. simpl.
  rewrite !bind_run. simpl.
  by destruct (AdamW_check _ _) as [[]|e].
Qed.

Definition restored (sd : StateDict) (w : World) : World :=
  mkWorld (torch_rng w) (cuda_rng w) (py_rng w) (np_rng w)
    (cudnn_deterministic w) (cudnn_benchmark w)
    (copy_from sd (named_parameters network) (store w)).1 (ext w).

Lemma load_state_dict_run (sd : StateDict) (w : World) :
  load_state_dict network sd w =
  (match (copy_from sd (named_parameters network) (store w)).2,
         unexpected_keys sd (named_parameters network) with
   | [], [] => Ok tt
   | _, _ => Raise RuntimeError
   end, restored sd w, [EvLoadStateDict]).
Proof.
  unfold load_state_dict, restored.
  destruct (copy_from _ _ _) as [st' missing]. simpl.
  by destruct missing, (unexpected_keys sd (named_parameters network)).
Qed.

Lemma finalize_run (lv : loop_vars) (w : World) :
  finalize network lv w =
  match best_parameters lv with
  | None => (Raise (UnboundLocalError "best_parameters"), w, [])
  | Some sd =>
      (match outcome (load_state_dict network sd w) with
       | Ok _ => Ok (network, losses lv)
       | Raise e => Raise e
       end, restored sd w, [EvLoadStateDict])
  end.
Proof.
  unfold finalize. destruct (best_parameters lv) as [sd|]; [|done].
  rewrite bind_run. simpl. rewrite bind_run, load_state_dict_run.
  by destruct (copy_from sd (named_parameters network) (store w)).2,
    (unexpected_keys sd (named_parameters network)).
Qed.

Abbreviation run_train_model fixed_seed :=
  (train_model network tag_encoder dataset_training dataset_validation bert_model_name
     max_len train_batch_size validation_batch_size epochs warmup_steps
     custom_weight_decay learning_rate device fixed_seed).

(** Whether a run reaches its loop: lines 63-64 return, the step count
    of line 107 is computed and the optimizer of line 109 is built. *)
Definition setup (fixed_seed : option Z) (w : World) : result Z :=
  match seeding_result fixed_seed with
  | Ok _ =>
      match num_train_steps (reader_len (loaded_train (seeding_world fixed_seed w)).1.1)
              train_batch_size epochs with
      | Ok steps =>
          match AdamW_check (optimizer_parameters_of network custom_weight_decay)
                  learning_rate with
          | Ok _ => Ok steps
          | Raise e => Raise e
          end
      | Raise e => Raise e
      end
  | Raise e => Raise e
  end.

Lemma setup_Ok (fixed_seed : option Z) (w : World) (steps : Z) :
  setup fixed_seed w = Ok steps <->
  seeding_result fixed_seed = Ok tt /\
  num_train_steps (reader_len (loaded_train (seeding_world fixed_seed w)).1.1)
    train_batch_size epochs = Ok steps /\
  AdamW_check (optimizer_parameters_of network custom_weight_decay) learning_rate = Ok tt.
Proof.
  unfold setup. split.
  - destruct (seeding_result fixed_seed) as [[]|]; [|done].
    destruct (num_train_steps _ _ _); [|done].
    destruct (AdamW_check _ _) as [[]|]; [|done]. by intros [= ->].
  - by intros (-> & -> & ->).
Qed.

(** No stage before the loop raises [UnboundLocalError]. *)
Lemma setup_Raise (fixed_seed : option Z) (w : World) (e : exn) :
  setup fixed_seed w = Raise e -> forall name, e <> UnboundLocalError name.
Proof.
  unfold setup. intros Hs name ->.
  destruct (seeding_result fixed_seed) eqn:Hseed.
  - destruct (num_train_steps _ _ _) eqn:Hn.
    + destruct (AdamW_check _ _) eqn:Ha; [done|]. injection Hs as ->.
      revert Ha. unfold AdamW_check. repeat case_match; done.
    + injection Hs as ->. revert Hn. unfold num_train_steps. repeat case_match; done.
  - injection Hs as ->. destruct fixed_seed as [seed|]; [|done].
    revert Hseed. simpl. unfold seeder_result. repeat case_match; done.
Qed.

(** A run that reaches the loop: the world and the calls before it. *)
Lemma train_model_run (fixed_seed : option Z) (w : World) (steps : Z) :
  let w0 := seeding_world fixed_seed w in
  setup fixed_seed w = Ok steps ->
  exists lv w2 e2,
    epoch_loop network (prepared_with w0 steps) device epochs (loaded_validate w0).2
      = (Ok lv, w2, e2) /\
    run_train_model fixed_seed w =
      (outcome (finalize network lv w2), final (finalize network lv w2),
       seeding_events fixed_seed ++ (loader_events ++ setup_events steps) ++
         e2 ++ events (finalize network lv w2)).
Proof.
  intros w0 (Hseed & Hsteps & Hopt)%setup_Ok.
  destruct (epochs_upto_rule network (prepared_with w0 steps) device epochs
              (fun _ _ _ _ => True) (loaded_validate w0).2 I (fun _ _ _ _ _ _ _ _ _ => I) epochs)
    as (lv & w2 & e2 & Hloop & _).
  exists lv, w2, e2. split; [done|].
  unfold train_model.
  rewrite (bind_Ok _ _ _ _ _ _ (seeding_run_Ok fixed_seed w Hseed)). fold w0.
  assert (prepare network tag_encoder dataset_training dataset_validation bert_model_name
    max_len train_batch_size validation_batch_size epochs warmup_steps
    custom_weight_decay learning_rate w0 =
      (Ok (prepared_with w0 steps), (loaded_validate w0).2,
       loader_events ++ setup_events steps)) as Hprep.
  { fold w0 in Hsteps. by rewrite prepare_run, Hsteps, Hopt. }
  rewrite (bind_Ok _ _ _ _ _ _ Hprep).
  rewrite epoch_loop_upto. rewrite (bind_Ok _ _ _ _ _ _ Hloop).
  reflexivity.
Qed.

(** The world a run that does not reach the loop ends in. *)
Definition setup_final (fixed_seed : option Z) (w : World) : World :=
  match seeding_result fixed_seed with
  | Ok _ => (loaded_validate (seeding_world fixed_seed w)).2
  | Raise _ => seeding_final fixed_seed w
  end.

(** The calls such a run makes after those of the seeder: the loaders
    are built when the seeder has returned, and the optimizer is asked
    for when the step count has been computed. *)
Definition setup_rest (fixed_seed : option Z) (w : World) : list event :=
  match seeding_result fixed_seed with
  | Ok _ =>
      match num_train_steps (reader_len (loaded_train (seeding_world fixed_seed w)).1.1)
              train_batch_size epochs with
      | Ok _ =>
          loader_events ++
          [EvAdamW (optimizer_parameters_of network custom_weight_decay) learning_rate]
      | Raise _ => loader_events
      end
  | Raise _ => []
  end.

(** A run that does not reach the loop. *)
Lemma train_model_run_raise (fixed_seed : option Z) (w : World) (e : exn) :
  setup fixed_seed w = Raise e ->
  run_train_model fixed_seed w =
    (Raise e, setup_final fixed_seed w, seeding_events fixed_seed ++ setup_rest fixed_seed w).
Proof.
  unfold setup, setup_final, setup_rest, train_model. intros Hs.
  rewrite bind_run, seeding_run.
  destruct (seeding_result fixed_seed) as [[]|e'] eqn:Hseed.
  - rewrite seeding_final_Ok by done. rewrite bind_run, prepare_run.
    destruct (num_train_steps _ _ _) as [steps|e'].
    + destruct (AdamW_check _ _) as [[]|e']; [done|]. by injection Hs as ->.
    + by injection Hs as ->.
  - injection Hs as ->. by rewrite app_nil_r.
Qed.

(** Such a run has made no pass, captured nothing and restored nothing. *)
Lemma train_model_run_raise_events (fixed_seed : option Z) (w : World) (e : exn) :
  setup fixed_seed w = Raise e ->
  outcome (run_train_model fixed_seed w) = Raise e /\
  final (run_train_model fixed_seed w) = setup_final fixed_seed w /\
  train_losses_of (events (run_train_model fixed_seed w)) = [] /\
  valid_losses_of (events (run_train_model fixed_seed w)) = [] /\
  filter (fun ev => is_capture ev = true) (events (run_train_model fixed_seed w)) = [] /\
  filter (fun ev => is_restore ev = true) (events (run_train_model fixed_seed w)) = [] /\
  filter (fun ev => is_seed_event ev = true) (events (run_train_model fixed_seed w))
    = seeding_events fixed_seed.
Proof.
  intros Hs. rewrite (train_model_run_raise fixed_seed w e Hs).
  unfold outcome, final, events. simpl.
  assert (train_losses_of (seeding_events fixed_seed) = [] /\
          valid_losses_of (seeding_events fixed_seed) = [] /\
          filter (fun ev => is_capture ev = true) (seeding_events fixed_seed) = [] /\
          filter (fun ev => is_restore ev = true) (seeding_events fixed_seed) = [] /\
          filter (fun ev => is_seed_event ev = true) (seeding_events fixed_seed)
            = seeding_events fixed_seed) as (Ht & Hv & Hc & Hr & Hse).
  { destruct fixed_seed as [seed|]; [|done]. simpl. unfold seed_events.
    by destruct (torch_seed_ok seed). }
  unfold train_losses_of, valid_losses_of, setup_rest in *.
  destruct (seeding_result fixed_seed); [destruct (num_train_steps _ _ _)|];
    split_and!; try done;
    rewrite ?omap_app, ?filter_app, ?Ht, ?Hv, ?Hc, ?Hr, ?Hse, ?app_nil_r; done.
Qed.

(** The schedule is built with the step count of line 107, for the
    length of the training reader. *)
Lemma prepare_schedule (w w' : World) (p : prepared Loader) (evs : list event) :
  prepare network tag_encoder dataset_training dataset_validation bert_model_name
    max_len train_batch_size validation_batch_size epochs warmup_steps
    custom_weight_decay learning_rate w = (Ok p, w', evs) ->
  num_train_steps (reader_len (loaded_train w).1.1) train_batch_size epochs
    = Ok (num_training_steps (scheduler p)) /\
  schedules_of evs = [(warmup_steps, num_training_steps (scheduler p))] /\
  optimizer p = AdamW (optimizer_parameters_of network custom_weight_decay) learning_rate /\
  AdamW_check (optimizer_parameters_of network custom_weight_decay) learning_rate = Ok tt.
Proof.
  rewrite prepare_run.
  destruct (num_train_steps _ _ _) as [steps|e]; [|done].
  destruct (AdamW_check _ _) as [[]|e]; [|done].
  by intros [= <- <- <-].
Qed.

(** C3, as amended. The step count the schedule is built with is
    [int(len(dr_train) / train_batch_size * epochs)]: the float quotient
    of the two integers, times the number of epochs, cut to its integer
    part. Whenever the batch size divides the number of examples (and
    the numbers are below [2 ^ 53]) this is the number of batches times
    the number of epochs, floor(n / b) * epochs: 4 for 10 examples in
    batches of 5 and 2 epochs. It is not so for every size: the part of
    a batch that is left over counts too, and 10 examples in batches of
    4 for 2 epochs give 5. *)
Theorem schedule_steps_truncated_product (w w' : World) (p : prepared Loader)
    (evs : list event) :
  prepare network tag_encoder dataset_training dataset_validation bert_model_name
    max_len train_batch_size validation_batch_size epochs warmup_steps
    custom_weight_decay learning_rate w = (Ok p, w', evs) ->
  let n := reader_len (loaded_train w).1.1 in
  num_train_steps n train_batch_size epochs = Ok (num_training_steps (scheduler p)) /\
  schedules_of evs = [(warmup_steps, num_training_steps (scheduler p))] /\
  (forall q, 0 <= q < 2 ^ 53 -> 0 < train_batch_size ->
     Z.of_nat epochs < 2 ^ 53 -> q * Z.of_nat epochs < 2 ^ 53 ->
     n = q * train_batch_size ->
     num_training_steps (scheduler p) = n / train_batch_size * Z.of_nat epochs) /\
  num_train_steps 10 5 2 = Ok 4 /\
  num_train_steps 10 4 2 = Ok 5.
Proof.
  intros Hprep n. apply prepare_schedule in Hprep as (Hsteps & Hsched & _). fold n in Hsteps.
  split_and!; try done.
  intros q Hq Hb He Hqe Hn.
  rewrite Hn, num_train_steps_exact in Hsteps by done.
  injection Hsteps as <-. by rewrite Hn, Z.div_mul by lia.
Qed.

(** *** Restoring from the module's own state dict *)

Lemma dict_get_elem (d : list (string * loc)) (name : string) (l : loc) :
  NoDup d.*1 -> (name, l) ∈ d -> dict_get name d = Some l.
Proof.
  induction d as [|[k v] d IH]; simpl; intros Hnd Hin.
  - by apply elem_of_nil in Hin.
  - apply NoDup_cons in Hnd as [Hk Hnd].
    apply elem_of_cons in Hin as [[= -> ->]|Hin].
    + by rewrite String.eqb_refl.
    + destruct (String.eqb_spec k name) as [->|_]; [|by apply IH].
      destruct Hk. apply list_elem_of_fmap. by exists (name, l).
Qed.

Lemma dict_get_key (d : list (string * loc)) (name : string) :
  name ∈ d.*1 -> dict_get name d <> None.
Proof.
  induction d as [|[k v] d IH]; simpl; intros Hin.
  - by apply elem_of_nil in Hin.
  - destruct (String.eqb_spec k name) as [->|Hne]; [done|].
    apply elem_of_cons in Hin as [->|Hin]; [done|by apply IH].
Qed.

(** Copying every tensor onto itself changes nothing. *)
Lemma copy_from_alias (sd ps : list (string * loc)) (st : gmap loc Tensor) :
  (forall name l, (name, l) ∈ ps -> dict_get name sd = Some l) ->
  copy_from sd ps st = (st, []).
Proof.
  induction ps as [|[name l] ps IH]; simpl; intros Hsd; [done|].
  rewrite (Hsd name l) by apply list_elem_of_here.
  destruct (st !! l) as [v|] eqn:Hl.
  - rewrite insert_id by done. apply IH. intros ???. apply Hsd. by apply list_elem_of_further.
  - apply IH. intros ???. apply Hsd. by apply list_elem_of_further.
Qed.

Lemma unexpected_keys_own (ps : list (string * loc)) : unexpected_keys ps ps = [].
Proof.
  unfold unexpected_keys.
  assert (forall ks : list string,
            (forall k, k ∈ ks -> dict_get k ps <> None) ->
            filter (fun k => dict_get k ps = None) ks = []) as Hf.
  { induction ks as [|k ks IH]; intros Hks; [done|].
    rewrite filter_cons_False by (apply Hks, list_elem_of_here).
    apply IH. intros ??. apply Hks. by apply list_elem_of_further. }
  apply Hf. intros k. apply dict_get_key.
Qed.

(** [network.load_state_dict(network.state_dict())] leaves every
    tensor as it is. *)
Lemma load_own_state_dict (w : World) :
  NoDup (named_parameters network).*1 ->
  load_state_dict network (named_parameters network) w = (Ok tt, w, [EvLoadStateDict]).
Proof.
  intros Hnd. rewrite load_state_dict_run. unfold restored.
  rewrite copy_from_alias, unexpected_keys_own; [by destruct w|].
  intros name l. by apply dict_get_elem.
Qed.

(** X2. When [train_model] returns, the tensors of the network hold
    what the last pass of the loop has left in them: the restoration
    copies them onto themselves. *)
Lemma train_model_returns_last_pass
    (fixed_seed : option Z) (w w' : World) network' ls evs :
  NoDup (named_parameters network).*1 ->
  run_train_model fixed_seed w = (Ok (network', ls), w', evs) ->
  let w0 := seeding_world fixed_seed w in
  exists steps,
    num_train_steps (reader_len (loaded_train w0).1.1) train_batch_size epochs
      = Ok steps /\
    network' = network /\
    w' = final (epoch_loop network (prepared_with w0 steps) device epochs
                  (loaded_validate w0).2).
Proof.
  intros Hnd Hrun w0.
  destruct (setup fixed_seed w) as [steps|e] eqn:Hsetup.
  - pose proof Hsetup as (_ & Hsteps & _)%setup_Ok.
    exists steps. split; [done|].
    destruct (train_model_run fixed_seed w steps Hsetup) as (lv & w2 & e2 & Hloop & Heq).
    fold w0 in Hloop. rewrite Hloop. unfold final at 1. simpl.
    rewrite Hrun in Heq. injection Heq as Hout Hw _.
    rewrite epoch_loop_upto in Hloop.
    apply epochs_upto_best in Hloop as (_ & _ & _ & _ & Hsd).
    rewrite finalize_run in Hout, Hw.
    destruct (best_parameters lv) as [sd|]; [|done].
    rewrite (Hsd sd eq_refl) in *.
    rewrite load_own_state_dict in Hout by done.
    unfold outcome in Hout. simpl in Hout. injection Hout as -> _.
    split; [done|]. rewrite Hw. unfold final, restored. simpl.
    rewrite copy_from_alias; [by destruct w2|].
    intros name l. by apply dict_get_elem.
  - apply train_model_run_raise_events in Hsetup as (Hout & _).
    by rewrite Hrun in Hout.
Qed.

(** *** What every run records, stage by stage *)

Lemma seeding_events_seed (fixed_seed : option Z) :
  filter (fun ev => is_seed_event ev = true) (seeding_events fixed_seed)
    = seeding_events fixed_seed /\
  train_losses_of (seeding_events fixed_seed) = [] /\
  valid_losses_of (seeding_events fixed_seed) = [] /\
  filter (fun ev => is_restore ev = true) (seeding_events fixed_seed) = [].
Proof.
  destruct fixed_seed as [seed|]; [|done]. simpl. unfold seed_events.
  by destruct (torch_seed_ok seed).
Qed.

Lemma finalize_events (lv : loop_vars) (w : World) :
  train_losses_of (events (finalize network lv w)) = [] /\
  valid_losses_of (events (finalize network lv w)) = [] /\
  filter (fun ev => is_seed_event ev = true) (events (finalize network lv w)) = [].
Proof. rewrite finalize_run. by destruct (best_parameters lv). Qed.

(** The loop leaves the captured parameters unbound when no
    validation loss was below [inf]. *)
Lemma epochs_upto_unbound (p : prepared Loader) (w : World) (k : nat) lv w' evs :
  epochs_upto network p device epochs k w = (Ok lv, w', evs) ->
  (forall v, v ∈ valid_losses_of evs -> ltb v inf = false) ->
  best_parameters lv = None /\ best_loss lv = inf.
Proof.
  revert k lv w' evs.
  apply (epochs_upto_inv network p device epochs
           (fun _ lv _ evs =>
              (forall v, v ∈ valid_losses_of evs -> ltb v inf = false) ->
              best_parameters lv = None /\ best_loss lv = inf)); [done|].
  intros k lv w' evs lv' w'' evs' IH Hb Hall.
  pose proof (epoch_body_Ok _ _ _ _ _ _ _ _ _ _ Hb) as (_ & _ & Hup).
  apply epoch_body_losses in Hb as (_ & Hv & _).
  unfold valid_losses_of in *. rewrite omap_app, Hv in Hall.
  destruct IH as [Hnone Hinf].
  { intros v Hin. apply Hall, elem_of_app. by left. }
  rewrite Hinf, Hall in Hup.
  - destruct Hup as (-> & -> & _). done.
  - apply elem_of_app. right. by apply list_elem_of_singleton.
Qed.

(** C5. When [train_model] returns, the list of losses it returns
    has exactly [epochs] entries, and it is the list of the values
    the training passes returned, in the order of the passes: what a
    validation pass returns is not in it. *)
Theorem loss_trace_one_training_loss_per_epoch
    (fixed_seed : option Z) (w w' : World) network' ls evs :
  run_train_model fixed_seed w = (Ok (network', ls), w', evs) ->
  length ls = epochs /\ ls = train_losses_of evs.
Proof.
  intros Hrun.
  destruct (setup fixed_seed w) as [steps|e] eqn:Hsetup.
  - destruct (train_model_run fixed_seed w steps Hsetup) as (lv & w2 & e2 & Hloop & Heq).
    rewrite Hrun in Heq. injection Heq as Hout Hw Hevs.
    pose proof (finalize_events lv w2) as (Hft & _).
    rewrite epoch_loop_upto in Hloop.
    apply epochs_upto_losses in Hloop as (Hl & Hn & _).
    assert (ls = losses lv) as ->.
    { rewrite finalize_run in Hout. destruct (best_parameters lv) as [sd|]; [|done].
      unfold outcome at 1 in Hout. simpl in Hout.
      destruct (outcome (load_state_dict network sd w2)); [|done]. by injection Hout. }
    split; [done|].
    pose proof (seeding_events_seed fixed_seed) as (_ & Hst & _).
    rewrite Hevs, Hl. unfold train_losses_of in *.
    rewrite omap_app, Hst. simpl. by rewrite omap_app, Hft, app_nil_r.
  - apply train_model_run_raise_events in Hsetup as (Hout & _).
    by rewrite Hrun in Hout.
Qed.

(** The calls of a run begin with those of the seeder, and no later
    call is one of the seeder's. *)
Lemma train_model_events (fixed_seed : option Z) (w : World) :
  exists rest,
    events (run_train_model fixed_seed w) = seeding_events fixed_seed ++ rest /\
    filter (fun ev => is_seed_event ev = true) rest = [].
Proof.
  destruct (setup fixed_seed w) as [steps|e] eqn:Hsetup.
  - destruct (train_model_run fixed_seed w steps Hsetup) as (lv & w2 & e2 & Hloop & Heq).
    rewrite Heq. unfold events at 1. simpl.
    eexists. split; [reflexivity|].
    rewrite epoch_loop_upto in Hloop.
    apply epochs_upto_losses in Hloop as (_ & _ & Hs & _).
    pose proof (finalize_events lv w2) as (_ & _ & Hf).
    events_norm; by rewrite Hs, Hf.
  - rewrite (train_model_run_raise fixed_seed w e Hsetup).
    eexists. split; [reflexivity|]. unfold setup_rest.
    by destruct (seeding_result fixed_seed); [destruct (num_train_steps _ _ _)|].
Qed.

(** Seeding with one seed leaves the same generators and flags,
    whatever they were before. *)
Lemma seeded_agree (seed : Z) (w1 w2 : World) :
  store w1 = store w2 -> ext w1 = ext w2 -> seeded seed w1 = seeded seed w2.
Proof. unfold seeded. by intros -> ->. Qed.

(** The calls of the seeder in a run: none without a seed, those of
    [enforce_reproducibility] with it, before every other call. *)
Lemma seeder_calls_of_run (fixed_seed : option Z) (w : World) :
  seeding None w = (Ok tt, w, []) /\
  filter (fun ev => is_seed_event ev = true) (events (run_train_model fixed_seed w))
    = match fixed_seed with Some seed => seed_events seed | None => [] end /\
  (exists rest, events (run_train_model fixed_seed w)
     = match fixed_seed with Some seed => seed_events seed | None => [] end ++ rest) /\
  (filter (fun ev => is_seed_event ev = true) (events (run_train_model fixed_seed w)) = []
     <-> fixed_seed = None).
Proof.
  destruct (train_model_events fixed_seed w) as (rest & Hev & Hrest).
  pose proof (seeding_events_seed fixed_seed) as (Hs & _).
  assert (filter (fun ev => is_seed_event ev = true)
            (events (run_train_model fixed_seed w)) = seeding_events fixed_seed) as Hf.
  { by rewrite Hev, filter_app, Hs, Hrest, app_nil_r. }
  split_and!.
  - done.
  - done.
  - by exists rest.
  - rewrite Hf. destruct fixed_seed as [seed|]; [|done]. simpl.
    unfold seed_events. by destruct (torch_seed_ok seed).
Qed.

(** *** Which runs return *)

Lemma copy_from_no_missing (sd ps : list (string * loc)) (st : gmap loc Tensor) :
  (forall name, name ∈ ps.*1 -> dict_get name sd <> None) ->
  (copy_from sd ps st).2 = [].
Proof.
  revert st. induction ps as [|[name l] ps IH]; intros st Hsd; [done|]. simpl.
  destruct (dict_get name sd) as [l'|] eqn:Hget.
  - apply IH. intros k Hk. apply Hsd. simpl. by apply list_elem_of_further.
  - destruct (Hsd name); [apply list_elem_of_here|done].
Qed.

(** Loading the module's own state dict raises nothing. *)
Lemma load_own_state_dict_Ok (w : World) :
  outcome (load_state_dict network (named_parameters network) w) = Ok tt.
Proof.
  rewrite load_state_dict_run. unfold outcome. simpl.
  rewrite copy_from_no_missing, unexpected_keys_own; [done|].
  intros name. apply dict_get_key.
Qed.

(** The loop has captured the parameters as soon as one validation loss
    was below [inf]. *)
Lemma epochs_upto_bound (p : prepared Loader) (w : World) (k : nat) lv w' evs :
  epochs_upto network p device epochs k w = (Ok lv, w', evs) ->
  (exists v, v ∈ valid_losses_of evs /\ ltb v inf = true) ->
  best_parameters lv = Some (named_parameters network).
Proof.
  intros Hrun (v & Hv & Hlt).
  pose proof (epochs_upto_best _ _ _ _ _ _ _ _ _ Hrun) as (_ & _ & Hmin & Hnone & Hsome).
  destruct (best_parameters lv) as [sd|]; [by rewrite (Hsome sd)|].
  specialize (Hmin v Hv). rewrite Hnone in Hmin by done. congruence.
Qed.

(** The validation losses of a run are those of its loop. *)
Lemma train_model_valid_losses (fixed_seed : option Z) (w : World) (steps : Z) lv w2 e2 :
  epoch_loop network (prepared_with (seeding_world fixed_seed w) steps) device epochs
    (loaded_validate (seeding_world fixed_seed w)).2 = (Ok lv, w2, e2) ->
  valid_losses_of
    (seeding_events fixed_seed ++ (loader_events ++ setup_events steps) ++
       e2 ++ events (finalize network lv w2)) = valid_losses_of e2 /\
  train_losses_of
    (seeding_events fixed_seed ++ (loader_events ++ setup_events steps) ++
       e2 ++ events (finalize network lv w2)) = train_losses_of e2 /\
  filter (fun ev => is_capture ev = true)
    (seeding_events fixed_seed ++ (loader_events ++ setup_events steps) ++
       e2 ++ events (finalize network lv w2))
    = filter (fun ev => is_capture ev = true) e2.
Proof.
  intros _.
  pose proof (seeding_events_seed fixed_seed) as (_ & Hst & Hsv & _).
  pose proof (finalize_events lv w2) as (Hft & Hfv & _).
  assert (filter (fun ev => is_capture ev = true) (seeding_events fixed_seed) = []) as Hsc.
  { destruct fixed_seed as [seed|]; [|done]. simpl. unfold seed_events.
    by destruct (torch_seed_ok seed). }
  assert (filter (fun ev => is_capture ev = true) (events (finalize network lv w2)) = [])
    as Hfc by (rewrite finalize_run; by destruct (best_parameters lv)).
  unfold valid_losses_of, train_losses_of in *.
  split_and!; events_norm; rewrite ?Hst, ?Hsv, ?Hft, ?Hfv, ?Hsc, ?Hfc, ?app_nil_r; done.
Qed.

Lemma below_inf_or_not (vs : list float) :
  (exists v, v ∈ vs /\ ltb v inf = true) \/ (forall v, v ∈ vs -> ltb v inf = false).
Proof.
  induction vs as [|u vs [(v & Hv & Hlt)|Hall]].
  - right. intros v Hv. by apply elem_of_nil in Hv.
  - left. exists v. split; [by apply list_elem_of_further|done].
  - destruct (ltb u inf) eqn:Hu.
    + left. exists u. split; [apply list_elem_of_here|done].
    + right. intros v [->|Hv]%elem_of_cons; auto.
Qed.

(** The stages of a run that have returned, read as [setup]. *)
Lemma stages_setup (fixed_seed : option Z) (w w0 w1 : World) (e0 e1 : list event)
    (p : prepared Loader) :
  seeding fixed_seed w = (Ok tt, w0, e0) ->
  prepare network tag_encoder dataset_training dataset_validation bert_model_name
    max_len train_batch_size validation_batch_size epochs warmup_steps
    custom_weight_decay learning_rate w0 = (Ok p, w1, e1) ->
  exists steps,
    setup fixed_seed w = Ok steps /\
    w0 = seeding_world fixed_seed w /\ e0 = seeding_events fixed_seed /\
    p = prepared_with w0 steps /\ w1 = (loaded_validate w0).2 /\
    e1 = loader_events ++ setup_events steps.
Proof.
  rewrite seeding_run. intros [= Hseed <- <-].
  rewrite (seeding_final_Ok fixed_seed w Hseed), prepare_run.
  destruct (num_train_steps _ _ _) as [steps|e] eqn:Hsteps; [|done].
  destruct (AdamW_check _ _) as [[]|e] eqn:Hopt; [|done].
  intros [= <- <- <-]. exists steps. split_and!; try done.
  by apply setup_Ok.
Qed.

(** X1. A run that gets through its loop (the seeding, the setup of
    lines 66-112 and the [epochs] passes have returned) returns if and
    only if one of its validation losses is below [inf]; it then
    returns the network it was given with the list of the training
    losses, and the restoration is its last call and its only one.
    When no validation loss is below [inf], and only then, it raises
    [UnboundLocalError] at line 132. *)
Theorem returns_iff_a_loss_is_below_inf
    (fixed_seed : option Z) (w w0 w1 w2 : World) (e0 e1 e2 : list event)
    (p : prepared Loader) (lv : loop_vars) :
  seeding fixed_seed w = (Ok tt, w0, e0) ->
  prepare network tag_encoder dataset_training dataset_validation bert_model_name
    max_len train_batch_size validation_batch_size epochs warmup_steps
    custom_weight_decay learning_rate w0 = (Ok p, w1, e1) ->
  epoch_loop network p device epochs w1 = (Ok lv, w2, e2) ->
  let r := run_train_model fixed_seed w in
  valid_losses_of (events r) = valid_losses_of e2 /\
  train_losses_of (events r) = train_losses_of e2 /\
  ((exists v, v ∈ valid_losses_of (events r) /\ ltb v inf = true) <->
   outcome r = Ok (network, train_losses_of (events r))) /\
  ((forall v, v ∈ valid_losses_of (events r) -> ltb v inf = false) <->
   outcome r = Raise (UnboundLocalError "best_parameters")) /\
  events r = e0 ++ e1 ++ e2 ++
    match outcome r with Ok _ => [EvLoadStateDict] | Raise _ => [] end /\
  filter (fun ev => is_restore ev = true) (e0 ++ e1 ++ e2) = [].
Proof.
  intros Hseed Hprep Hloop r. subst r.
  destruct (stages_setup _ _ _ _ _ _ _ Hseed Hprep)
    as (steps & Hsetup & -> & -> & -> & -> & ->).
  destruct (train_model_run fixed_seed w steps Hsetup) as (lv' & w2' & e2' & Hloop' & Heq).
  rewrite Hloop in Hloop'. injection Hloop' as <- <- <-.
  pose proof (train_model_valid_losses fixed_seed w steps lv w2 e2 Hloop) as (Hv & Ht & _).
  assert (events (run_train_model fixed_seed w) =
            seeding_events fixed_seed ++ (loader_events ++ setup_events steps) ++
              e2 ++ events (finalize network lv w2)) as Hev by (by rewrite Heq).
  assert (outcome (run_train_model fixed_seed w) = outcome (finalize network lv w2))
    as Hout by (by rewrite Heq).
  rewrite <- Hev in Hv, Ht. rewrite Hout, Hv, Ht, Hev. clear Hev Hout Hv Ht.
  rewrite epoch_loop_upto in Hloop.
  pose proof (epochs_upto_losses _ _ _ _ _ _ _ _ _ Hloop) as (Hl & _ & _ & Hr).
  pose proof (seeding_events_seed fixed_seed) as (_ & _ & _ & Hsr).
  assert (filter (fun ev => is_restore ev = true)
            (seeding_events fixed_seed ++ (loader_events ++ setup_events steps) ++ e2) = [])
    as Hnr by (events_norm; by rewrite Hsr, Hr).
  do 2 (split; [done|]).
  rewrite finalize_run.
  destruct (best_parameters lv) as [sd|] eqn:Hbp.
  - pose proof (epochs_upto_best _ _ _ _ _ _ _ _ _ Hloop) as (_ & _ & Hmin & Hnone & Hsome).
    rewrite (Hsome sd Hbp), load_own_state_dict_Ok. unfold outcome, events. simpl.
    assert (exists v, v ∈ valid_losses_of e2 /\ ltb v inf = true) as Hex.
    { destruct (below_inf_or_not (valid_losses_of e2)) as [|Hno]; [done|].
      apply epochs_upto_unbound in Hloop as [Hcontra _]; [congruence|done]. }
    split; [|split; [|done]].
    + split; [by rewrite Hl|done].
    + split; [|done]. intros Hall. destruct Hex as (v & Hv & Hlt).
      by rewrite (Hall v Hv) in Hlt.
  - unfold outcome, events. simpl. split; [|split; [|by rewrite app_nil_r]].
    + split; [|done]. intros Hex.
      apply (epochs_upto_bound _ _ _ _ _ _ Hloop) in Hex. congruence.
    + split; [done|]. intros _ v Hv.
      pose proof (epochs_upto_best _ _ _ _ _ _ _ _ _ Hloop) as (_ & _ & Hmin & Hnone & _).
      specialize (Hmin v Hv). by rewrite Hnone in Hmin.
Qed.

(** X3. A run that raises [UnboundLocalError] has done all its work
    first: the [epochs] training passes and the [epochs] validation
    passes were made, nothing was captured and nothing is restored, and
    the world is left as the last pass left it, with the tensors as
    trained. *)
Theorem unbound_run_has_trained (fixed_seed : option Z) (w : World) :
  let r := run_train_model fixed_seed w in
  let w0 := seeding_world fixed_seed w in
  outcome r = Raise (UnboundLocalError "best_parameters") ->
  length (train_losses_of (events r)) = epochs /\
  length (valid_losses_of (events r)) = epochs /\
  filter (fun ev => is_capture ev = true) (events r) = [] /\
  filter (fun ev => is_restore ev = true) (events r) = [] /\
  exists steps,
    num_train_steps (reader_len (loaded_train w0).1.1) train_batch_size epochs
      = Ok steps /\
    final r = final (epoch_loop network (prepared_with w0 steps) device epochs
                       (loaded_validate w0).2).
Proof.
  intros r w0 Hout. subst r.
  destruct (setup fixed_seed w) as [steps|e] eqn:Hsetup.
  - pose proof Hsetup as (_ & Hsteps & _)%setup_Ok. fold w0 in Hsteps.
    destruct (train_model_run fixed_seed w steps Hsetup) as (lv & w2 & e2 & Hloop & Heq).
    fold w0 in Hloop.
    pose proof (train_model_valid_losses fixed_seed w steps lv w2 e2 Hloop) as (Hv & Ht & Hc).
    assert (events (run_train_model fixed_seed w) =
              seeding_events fixed_seed ++ (loader_events ++ setup_events steps) ++
                e2 ++ events (finalize network lv w2)) as Hev by (by rewrite Heq).
    assert (outcome (run_train_model fixed_seed w) = outcome (finalize network lv w2))
      as Hout' by (by rewrite Heq).
    assert (final (run_train_model fixed_seed w) = final (finalize network lv w2))
      as Hfin by (by rewrite Heq).
    rewrite <- Hev in Hv, Ht, Hc. rewrite Hout' in Hout.
    rewrite Hfin, Hv, Ht, Hc, Hev. clear Hev Hout' Hfin Heq Hv Ht Hc.
    pose proof Hloop as Hloop'. rewrite epoch_loop_upto in Hloop'.
    pose proof (epochs_upto_losses _ _ _ _ _ _ _ _ _ Hloop') as (Hl & Hn & _ & Hr).
    pose proof (epochs_upto_track _ _ _ _ _ _ _ _ _ Hloop') as [Htr Hk].
    pose proof (epochs_upto_best _ _ _ _ _ _ _ _ _ Hloop') as (_ & _ & Hmin & Hnone & Hsome).
    pose proof (seeding_events_seed fixed_seed) as (_ & _ & _ & Hsr).
    rewrite finalize_run in *.
    destruct (best_parameters lv) as [sd|] eqn:Hbp.
    { assert (sd = named_parameters network) as -> by (by apply Hsome).
      by rewrite load_own_state_dict_Ok in Hout. }
    rewrite <- Hl, Hn, Hk. split_and!; try done.
    + rewrite track_kept in Htr.
      * injection Htr as _ Hlen. by apply nil_length_inv.
      * intros u Hu. specialize (Hmin u Hu). by rewrite Hnone in Hmin.
    + unfold events. simpl. events_norm. by rewrite Hsr, Hr.
    + exists steps. split; [done|]. by rewrite Hloop.
  - pose proof (train_model_run_raise_events fixed_seed w e Hsetup) as (Hout' & _).
    rewrite Hout in Hout'. injection Hout' as <-.
    by destruct (setup_Raise fixed_seed w _ Hsetup "best_parameters"%string).
Qed.

(** *** The cuDNN flags after a run *)

Definition flags (w : World) : bool * bool :=
  (cudnn_deterministic w, cudnn_benchmark w).

(** X7. [train_model] never puts the cuDNN flags back. When the
    collaborators leave the two flags alone, a run with a seed that
    [torch.manual_seed] takes ends, whether it returns or raises (at
    line 27 for a seed numpy refuses, or later), with [deterministic]
    set and [benchmark] cleared, whatever they were before. A run with
    a seed that [torch.manual_seed] refuses raises at line 17, before
    lines 23-24, and a run without a seed does not reach them: both end
    with the flags they found. *)
Theorem flags_stay_as_seeded (fixed_seed : option Z) (w : World) :
  (forall s t name ml bs enc w,
     flags (create_dataloader s t name ml bs enc w).2 = flags w) ->
  (forall net dl opt dev sch n w, flags (train_ net dl opt dev sch n w).2 = flags w) ->
  (forall net dl dev n w, flags (validate_ net dl dev n w).2 = flags w) ->
  flags (final (run_train_model fixed_seed w)) =
    match fixed_seed with
    | Some seed => if torch_seed_ok seed then (true, false) else flags w
    | None => flags w
    end.
Proof.
  intros Hcreate Htrain Hvalidate.
  set (w0 := seeding_world fixed_seed w).
  assert (flags (seeding_final fixed_seed w) =
            match fixed_seed with
            | Some seed => if torch_seed_ok seed then (true, false) else flags w
            | None => flags w
            end) as Hfin.
  { destruct fixed_seed as [seed|]; [|done]. simpl. unfold seeder_world.
    destruct (torch_seed_ok seed); [|done]. by destruct (np_seed_ok seed). }
  assert (flags (loaded_validate w0).2 = flags w0) as Hload.
  { unfold loaded_validate, loaded_train. by rewrite !Hcreate. }
  destruct (setup fixed_seed w) as [steps|e] eqn:Hsetup.
  - pose proof Hsetup as (Hseed & _)%setup_Ok.
    rewrite (seeding_final_Ok _ w Hseed) in Hfin. fold w0 in Hfin.
    destruct (train_model_run fixed_seed w steps Hsetup) as (lv & w2 & e2 & Hloop & Heq).
    fold w0 in Hloop. rewrite Heq. unfold final at 1. simpl.
    assert (forall k lv w' evs,
              epochs_upto network (prepared_with w0 steps) device epochs k
                (loaded_validate w0).2 = (Ok lv, w', evs) ->
              flags w' = flags (loaded_validate w0).2) as Hinv.
    { apply (epochs_upto_inv network (prepared_with w0 steps) device epochs
               (fun _ _ w' _ => flags w' = flags (loaded_validate w0).2)); [done|].
      intros k lv' w' evs lv'' w'' evs' IH Hb.
      apply epoch_body_Ok in Hb as (-> & _). unfold validated, trained.
      by rewrite Hvalidate, Htrain. }
    rewrite epoch_loop_upto in Hloop. apply Hinv in Hloop as Hw2.
    rewrite finalize_run. destruct (best_parameters lv); unfold final; simpl;
      by rewrite <- Hfin, <- Hload, <- Hw2.
  - pose proof (train_model_run_raise_events fixed_seed w e Hsetup) as (_ & -> & _).
    unfold setup_final.
    destruct (seeding_result fixed_seed) as [[]|e'] eqn:Hseed; [|done].
    rewrite (seeding_final_Ok _ w Hseed) in Hfin. fold w0 in Hfin |- *.
    by rewrite Hload.
Qed.

(** *** A seed that is refused *)

(** X9. What a run with a seed does at lines 63-64, by the seed. A
    seed from 0 to [2 ^ 32 - 1] is taken by the four generators: the
    seeder returns, the generators and the two flags it leaves depend
    on the seed alone, seeding again with it changes nothing, and the
    loaders are built next. Another seed that fits 64 bits is refused
    by numpy at line 27: the run raises [ValueError] there, with torch,
    CUDA and [random] seeded and the flags set but numpy's generator as
    it was, and builds no loader. Any other seed is refused at line 17:
    the run raises [RuntimeError] with the world as it was. *)
Theorem seed_refused_before_loaders (seed : Z) (w : World) :
  let r := run_train_model (Some seed) w in
  (0 <= seed < 2 ^ 32 ->
     enforce_reproducibility seed w = (Ok tt, seeded seed w, seed_events seed) /\
     length (seed_events seed) = 6%nat /\
     (forall w', store w' = store w -> ext w' = ext w ->
        enforce_reproducibility seed w' = enforce_reproducibility seed w) /\
     enforce_reproducibility seed (seeded seed w) = (Ok tt, seeded seed w, seed_events seed) /\
     exists rest, events r = seed_events seed ++ loader_events ++ rest) /\
  (- 2 ^ 63 <= seed < 0 \/ 2 ^ 32 <= seed < 2 ^ 64 ->
     r = (Raise ValueError, seeded_but_numpy seed w, seed_events seed) /\
     last (seed_events seed) = Some (EvNpRandomSeed seed) /\
     np_rng (final r) = np_rng w) /\
  (seed < - 2 ^ 63 \/ 2 ^ 64 <= seed ->
     r = (Raise RuntimeError, w, [EvTorchManualSeed seed])).
Proof.
  intros r. subst r. split_and!.
  - intros Hs.
    assert (torch_seed_ok seed = true) as Ht by (unfold torch_seed_ok; lia).
    assert (np_seed_ok seed = true) as Hn by (unfold np_seed_ok; lia).
    assert (seeding_result (Some seed) = Ok tt) as Hseed.
    { simpl. unfold seeder_result. by rewrite Ht, Hn. }
    assert (forall w', enforce_reproducibility seed w'
                         = (Ok tt, seeded seed w', seed_events seed)) as Hrun.
    { intros w'. rewrite enforce_reproducibility_run.
      unfold seeder_result, seeder_world. by rewrite Ht, Hn. }
    split_and!.
    + apply Hrun.
    + unfold seed_events. by rewrite Ht.
    + intros w' Hst Hex. by rewrite !Hrun, (seeded_agree seed w' w).
    + by rewrite Hrun.
    + destruct (setup (Some seed) w) as [steps|e] eqn:Hsetup.
      * destruct (train_model_run (Some seed) w steps Hsetup)
          as (lv & w2 & e2 & Hloop & Heq).
        rewrite Heq. unfold events at 1. cbn [snd seeding_events].
        eexists. rewrite <- app_assoc. reflexivity.
      * rewrite (train_model_run_raise (Some seed) w e Hsetup).
        unfold events, setup_rest. cbn [snd seeding_events]. rewrite Hseed.
        destruct (num_train_steps _ _ _); [eexists; reflexivity|].
        exists []. by rewrite app_nil_r.
  - intros Hs.
    assert (torch_seed_ok seed = true) as Ht by (unfold torch_seed_ok; lia).
    assert (np_seed_ok seed = false) as Hn by (unfold np_seed_ok; lia).
    assert (setup (Some seed) w = Raise ValueError) as Hsetup.
    { unfold setup. simpl. unfold seeder_result. by rewrite Ht, Hn. }
    rewrite (train_model_run_raise (Some seed) w _ Hsetup).
    unfold setup_final, setup_rest. simpl. unfold seeder_result, seeder_world.
    rewrite Ht, Hn, app_nil_r. unfold seed_events. by rewrite Ht.
  - intros Hs.
    assert (torch_seed_ok seed = false) as Ht by (unfold torch_seed_ok; lia).
    assert (setup (Some seed) w = Raise RuntimeError) as Hsetup.
    { unfold setup. simpl. unfold seeder_result. by rewrite Ht. }
    rewrite (train_model_run_raise (Some seed) w _ Hsetup).
    unfold setup_final, setup_rest. simpl. unfold seeder_result, seeder_world, seed_events.
    by rewrite Ht.
Qed.

End Stages.

End Run.

(** ** The groups of the optimizer *)

Section Groups.

(** [sub] occurs in [s]. *)
Definition occurs_in (sub s : string) : Prop :=
  exists pre post : string, s = (pre +:+ sub +:+ post)%string.

(** The name holds one of the three substrings that exempt from decay. *)
Definition exempt_name (name : string) : Prop :=
  occurs_in "bias" name \/ occurs_in "LayerNorm.bias" name \/
  occurs_in "LayerNorm.weight" name.

Lemma starts_with_spec (sub s : string) :
  starts_with sub s = true <-> exists post : string, s = (sub +:+ post)%string.
Proof.
  revert s. induction sub as [|a sub IH]; intros s; simpl.
  - split; [by exists s|done].
  - destruct s as [|b s]; simpl.
    + split; [done|]. by intros [post ?].
    + rewrite andb_true_iff, IH. split.
      * intros [->%Ascii.eqb_eq [post ->]]. by exists post.
      * intros [post [= -> ->]]. split; [apply Ascii.eqb_refl|by exists post].
Qed.

Lemma str_in_spec (sub s : string) : str_in sub s = true <-> occurs_in sub s.
Proof.
  unfold occurs_in. induction s as [|b s IH]; simpl.
  - rewrite orb_false_r, starts_with_spec. split.
    + intros [post ?]. by exists EmptyString, post.
    + intros ([|] & post & Heq); [by exists post|done].
  - rewrite orb_true_iff, starts_with_spec, IH. split.
    + intros [[post ->]|(pre & post & ->)].
      * by exists EmptyString, post.
      * by exists (String b pre), post.
    + intros ([|a pre] & post & Heq); simpl in Heq.
      * left. by exists post.
      * right. injection Heq as -> ->. by exists pre, post.
Qed.

Lemma any_no_decay_spec (name : string) :
  any (fun nd => str_in nd name) no_decay = true <-> exempt_name name.
Proof.
  unfold any, no_decay, exempt_name. simpl.
  rewrite orb_false_r, !orb_true_iff, !str_in_spec. tauto.
Qed.



Lemma string_app_assoc (a b c : string) :
  ((a +:+ b) +:+ c = a +:+ (b +:+ c))%string.
Proof.
  induction a as [|x a IH]; [done|].
  change (String x ((a +:+ b) +:+ c) = String x (a +:+ (b +:+ c)))%string.
  by rewrite IH.
Qed.

(** X8. The entry "LayerNorm.bias" of the list of line 91 changes
    nothing, since a name that holds it holds "bias": with the custom
    weight decay, the group without decay is made of the parameters
    whose name holds "bias" or "LayerNorm.weight" anywhere in it, and
    of no other. *)
Theorem exempt_is_bias_or_layernorm_weight (network : Network) :
  (forall name,
     any (fun nd => str_in nd name) no_decay = true <->
     occurs_in "bias" name \/ occurs_in "LayerNorm.weight" name) /\
  exists decayed exempt,
    optimizer_parameters_of network true = ParamGroups [decayed; exempt] /\
    (forall t, t ∈ params exempt <->
       exists name, (name, t) ∈ named_parameters network /\
         (occurs_in "bias" name \/ occurs_in "LayerNorm.weight" name)).
Proof.
  assert (forall name,
            any (fun nd => str_in nd name) no_decay = true <->
            occurs_in "bias" name \/ occurs_in "LayerNorm.weight" name) as Hred.
  { intros name. rewrite any_no_decay_spec. unfold exempt_name. split; [|tauto].
    intros [?|[(pre & post & ->)|?]]; auto.
    left. exists (pre +:+ "LayerNorm.")%string, post.
    by rewrite !string_app_assoc. }
  split; [done|]. do 2 eexists. split; [reflexivity|]. simpl.
  intros t. rewrite list_elem_of_fmap. split.
  - intros ([name t'] & -> & [Hex Hin]%list_elem_of_filter).
    exists name. split; [done|]. apply Hred. by apply Is_true_true.
  - intros (name & Hin & Hex). exists (name, t). split; [done|].
    apply list_elem_of_filter. split; [|done].
    apply Is_true_true. by apply Hred.
Qed.

End Groups.

(** ** Runs of the small instance *)

(** What the loop of [Toy.run epochs fixed_seed w] is run with, the world
    it starts in, and its first [k] passes. *)
Definition toy_prepared (epochs : nat) (fixed_seed : option Z) (w : Toy.W) : prepared unit :=
  prepared_with Toy.network Toy.tag_encoder Toy.dataset Toy.dataset "bert"%string
    128 5 8 0 false (of_int 1) (seeding_world fixed_seed w) (2 * Z.of_nat epochs).

Definition toy_loop_start (fixed_seed : option Z) (w : Toy.W) : Toy.W :=
  (loaded_validate Toy.tag_encoder Toy.dataset Toy.dataset "bert"%string
     128 5 8 (seeding_world fixed_seed w)).2.

Definition toy_passes (epochs k : nat) (fixed_seed : option Z) (w : Toy.W) :=
  epochs_upto Toy.network (toy_prepared epochs fixed_seed w) tt epochs k
    (toy_loop_start fixed_seed w).

(** The spec's count of the steps: whole batches times epochs. *)
Definition spec_total_steps (n b : Z) (epochs : nat) : Z := n / b * Z.of_nat epochs.

(** [1 / 1000] rounds to the literal [0.001]. *)
Example float_0_001_is_the_literal : div_int 1 1000 = float_0_001.
Proof. reflexivity. Qed.

(** The run of [Toy.run] is its stages in turn: the loop of the run is
    [toy_passes]. *)
Lemma toy_run_stages (epochs : nat) (fixed_seed : option Z) (w : Toy.W) :
  2 * Z.of_nat epochs < 2 ^ 53 ->
  seeding_result fixed_seed = Ok tt ->
  exists lv w2 e2,
    toy_passes epochs epochs fixed_seed w = (Ok lv, w2, e2) /\
    outcome (Toy.run epochs fixed_seed w) = outcome (finalize Toy.network lv w2) /\
    final (Toy.run epochs fixed_seed w) = final (finalize Toy.network lv w2).
Proof.
  intros He Hseed.
  assert (num_train_steps 10 5 epochs = Ok (2 * Z.of_nat epochs)) as Hsteps.
  { apply (num_train_steps_exact 2 5 epochs); [done|done|lia|lia]. }
  destruct (train_model_run (C := Toy.collaborators) Toy.network Toy.tag_encoder
              Toy.dataset Toy.dataset "bert"%string 128 5 8 epochs 0 false (of_int 1) tt
              fixed_seed w (2 * Z.of_nat epochs)) as (lv & w2 & e2 & Hloop & Hrun).
  { apply setup_Ok. split_and!; [exact Hseed|exact Hsteps|reflexivity]. }
  exists lv, w2, e2. split; [exact Hloop|].
  unfold Toy.run, Toy.run_with. by rewrite Hrun.
Qed.

(** C1 (the code departs from the claim). Two epochs, with validation
    losses 1.0 and then 2.0: the first epoch is the best one and its
    parameters are captured, once. The training passes add one to the
    parameter in place, so it holds 1 after the first epoch and 2 after
    the second. The network [train_model] returns holds 2, the value of
    the last epoch, not 1: the state dict captured is the live tensor,
    not a copy of it. *)
Theorem best_snapshot_follows_live_parameters :
  let w := Toy.world0 7 [of_int 1; of_int 2] in
  let r := Toy.run 2 (Some 42) w in
  outcome r = Ok (Toy.network, [of_int 42; of_int 43]) /\
  valid_losses_of (events r) = [of_int 1; of_int 2] /\
  ltb (of_int 1) (of_int 2) = true /\
  filter (fun ev => is_capture ev = true) (events r) = [EvStateDict] /\
  Toy.values Toy.network (final (toy_passes 2 1 (Some 42) w)) = [Some 1] /\
  Toy.values Toy.network (final (toy_passes 2 2 (Some 42) w)) = [Some 2] /\
  Toy.values Toy.network (final r) = [Some 2].
Proof. vm_compute. repeat split. Qed.

(** C2 (the code departs from the claim). With no epoch, as with two
    epochs whose validation losses are NaN and +infinity, no loss is
    below the first best loss, [inf]. The claim has [train_model] skip
    the restoration and return the network as it is; the run reaches
    line 132 with [best_parameters] never bound and raises
    [UnboundLocalError]: it returns no network and no losses, after
    having made every pass. With no epoch the one tensor still holds 0. *)
Theorem restoration_is_not_skipped :
  outcome (Toy.run 0 (Some 42) (Toy.world0 7 []))
    = Raise (UnboundLocalError "best_parameters") /\
  Toy.values Toy.network (final (Toy.run 0 (Some 42) (Toy.world0 7 []))) = [Some 0] /\
  outcome (Toy.run 2 None (Toy.world0 7 [nan; inf]))
    = Raise (UnboundLocalError "best_parameters") /\
  train_losses_of (events (Toy.run 2 None (Toy.world0 7 [nan; inf])))
    = [of_int 7; of_int 8] /\
  valid_losses_of (events (Toy.run 2 None (Toy.world0 7 [nan; inf]))) = [nan; inf] /\
  filter (fun ev => is_restore ev = true)
    (events (Toy.run 2 None (Toy.world0 7 [nan; inf]))) = [] /\
  ltb nan inf = false /\ ltb inf inf = false.
Proof. vm_compute. repeat split. Qed.

(** C3 fails as stated: 10 examples in batches of 4 for 2 epochs give 5
    steps, where whole batches times epochs give 4. *)
Lemma part_of_a_batch_counts :
  num_train_steps 10 4 2 = Ok 5 /\
  spec_total_steps 10 4 2 = 4 /\
  schedules_of (events (Toy.run_with 4 2 None (Toy.world0 7 [of_int 1; of_int 2])))
    = [(0, 5)].
Proof. vm_compute. repeat split. Qed.

(** Ten examples in batches of 5 for 2 epochs: the schedule is built
    with 4 steps. *)
Lemma schedule_steps_toy :
  num_training_steps (scheduler (toy_prepared 2 None (Toy.world0 7 []))) = 10 / 5 * 2.
Proof.
  destruct (schedule_steps_truncated_product (C := Toy.collaborators) Toy.network
              Toy.tag_encoder Toy.dataset Toy.dataset "bert"%string 128 5 8 2 0 false
              (of_int 1) (Toy.world0 7 []) (toy_loop_start None (Toy.world0 7 []))
              (toy_prepared 2 None (Toy.world0 7 []))
              (loader_events 128 5 8 ++
               setup_events Toy.network 0 false (of_int 1) 4))
    as (_ & _ & Hq & _).
  - vm_compute. reflexivity.
  - apply (Hq 2); [lia|lia|simpl; lia|simpl; lia|reflexivity].
Defined.

(** C4 fails as stated: after a first validation loss that is NaN the
    best loss is still [inf], which is no loss seen; the second loss,
    1.0, becomes the best loss and the parameters are captured, though
    1.0 is not below the NaN seen before. *)
Lemma capture_after_nan :
  let w := Toy.world0 7 [nan; of_int 1] in
  valid_losses_of (events (toy_passes 2 1 None w)) = [nan] /\
  outcome (toy_passes 2 1 None w)
    = Ok {| losses := [of_int 7]; best_loss := inf; best_parameters := None |} /\
  outcome (toy_passes 2 2 None w)
    = Ok {| losses := [of_int 7; of_int 8]; best_loss := of_int 1;
            best_parameters := Some (named_parameters Toy.network) |} /\
  ltb (of_int 1) nan = false /\
  forallb (ltb (of_int 1)) [nan] = false.
Proof. vm_compute. repeat split. Qed.

(** A run of two epochs returns the two training losses, in order. *)
Lemma loss_trace_toy :
  let r := Toy.run 2 (Some 42) (Toy.world0 7 [of_int 1; of_int 2]) in
  length [of_int 42; of_int 43] = 2%nat /\
  [of_int 42; of_int 43] = train_losses_of (events r).
Proof.
  apply (loss_trace_one_training_loss_per_epoch (C := Toy.collaborators) Toy.network
           Toy.tag_encoder Toy.dataset Toy.dataset "bert"%string 128 5 8 2 0 false
           (of_int 1) tt (Some 42) (Toy.world0 7 [of_int 1; of_int 2])
           (final (Toy.run 2 (Some 42) (Toy.world0 7 [of_int 1; of_int 2])))
           Toy.network).
  vm_compute. reflexivity.
Defined.

(** C9 fails as stated: with the best loss at 1.0, which is finite, a
    validation loss of -infinity is below it: it becomes the best loss
    and the parameters are captured a second time. NaN and +infinity,
    for their part, are not below the first best loss, [inf]. *)
Lemma minus_infinity_is_captured :
  let w := Toy.world0 7 [of_int 1; neg_inf] in
  outcome (toy_passes 2 1 None w)
    = Ok {| losses := [of_int 7]; best_loss := of_int 1;
            best_parameters := Some (named_parameters Toy.network) |} /\
  is_finite (of_int 1) = true /\
  is_finite neg_inf = false /\
  ltb neg_inf (of_int 1) = true /\
  outcome (toy_passes 2 2 None w)
    = Ok {| losses := [of_int 7; of_int 8]; best_loss := neg_inf;
            best_parameters := Some (named_parameters Toy.network) |} /\
  filter (fun ev => is_capture ev = true) (events (toy_passes 2 2 None w))
    = [EvStateDict; EvStateDict] /\
  ltb nan inf = false /\ ltb inf inf = false.
Proof. vm_compute. repeat split. Qed.

(** A NaN validation loss on the first pass: nothing is captured and the
    best loss stays [inf]. *)
Lemma nan_on_first_epoch_is_ignored :
  exists lv',
    outcome (epoch_body Toy.network (toy_prepared 2 None (Toy.world0 7 [nan])) tt 2 0
               loop_init (toy_loop_start None (Toy.world0 7 [nan]))) = Ok lv' /\
    best_loss lv' = inf /\ best_parameters lv' = None.
Proof.
  destruct (non_finite_validation_loss (C := Toy.collaborators) Toy.network
              (toy_prepared 2 None (Toy.world0 7 [nan])) tt 2 0 loop_init
              (toy_loop_start None (Toy.world0 7 [nan])))
    as (lv' & w' & evs & Hb & _ & _ & Hkept & _).
  - reflexivity.
  - exists lv'. rewrite Hb. destruct Hkept as (Hl & Hp & _); [by left|]. done.
Defined.

(** C10. With [fixed_seed = None] the seeder is not called: that stage
    leaves the world as it is (no generator is seeded and the two cuDNN
    flags keep their values) and the run records no call of the seeder.
    With [fixed_seed = Some seed] the calls of the seeder, with that
    seed (all six, unless the first one refuses the seed), are the
    first calls of the run and its only calls of this kind. So the
    seeder runs if and only if a seed is given. A run
    without a seed depends on the generators as it finds them: two such
    runs of the small instance, on the same data, return different
    losses. *)
Theorem seeder_runs_iff_seed_given :
  (forall (Rng Tensor Ext Column TagEncoder Reader Loader Device : Type)
     (C : Collaborators Rng Tensor Ext Column TagEncoder Reader Loader Device)
     (network : Network) (tag_encoder : TagEncoder)
     (dataset_training dataset_validation : gmap string Column)
     (bert_model_name : string)
     (max_len train_batch_size validation_batch_size : Z)
     (epochs : nat) (warmup_steps : Z) (custom_weight_decay : bool)
     (learning_rate : float) (device : Device)
     (fixed_seed : option Z) (w : World Rng Tensor Ext),
     let r := train_model network tag_encoder dataset_training dataset_validation
                bert_model_name max_len train_batch_size validation_batch_size epochs
                warmup_steps custom_weight_decay learning_rate device fixed_seed w in
     seeding None w = (Ok tt, w, []) /\
     filter (fun ev => is_seed_event ev = true) (events r)
       = match fixed_seed with Some seed => seed_events seed | None => [] end /\
     (exists rest, events r
        = match fixed_seed with Some seed => seed_events seed | None => [] end ++ rest) /\
     (filter (fun ev => is_seed_event ev = true) (events r) = [] <-> fixed_seed = None)) /\
  (let vs := [of_int 1; of_int 2] in
   store (Toy.world0 7 vs) = store (Toy.world0 9 vs) /\
   ext (Toy.world0 7 vs) = ext (Toy.world0 9 vs) /\
   outcome (Toy.run 2 None (Toy.world0 7 vs)) = Ok (Toy.network, [of_int 7; of_int 8]) /\
   outcome (Toy.run 2 None (Toy.world0 9 vs)) = Ok (Toy.network, [of_int 9; of_int 10])).
Proof.
  split.
  - intros. apply seeder_calls_of_run.
  - vm_compute. repeat split.
Qed.

(** ** More runs of the small instance *)

(** A run with validation losses 1.0 and 2.0 returns, the first loss
    being below [inf]. *)
Lemma returns_iff_a_loss_is_below_inf_toy :
  let r := Toy.run 2 (Some 42) (Toy.world0 7 [of_int 1; of_int 2]) in
  outcome r = Ok (Toy.network, train_losses_of (events r)).
Proof.
  set (w := Toy.world0 7 [of_int 1; of_int 2]).
  destruct (returns_iff_a_loss_is_below_inf (C := Toy.collaborators) Toy.network
              Toy.tag_encoder Toy.dataset Toy.dataset "bert"%string 128 5 8 2 0 false
              (of_int 1) tt (Some 42) w (seeded 42 w) (toy_loop_start (Some 42) w)
              (final (toy_passes 2 2 (Some 42) w))
              (seed_events 42)
              (loader_events 128 5 8 ++ setup_events Toy.network 0 false (of_int 1) 4)
              (events (toy_passes 2 2 (Some 42) w))
              (toy_prepared 2 (Some 42) w)
              {| losses := [of_int 42; of_int 43]; best_loss := of_int 1;
                 best_parameters := Some (named_parameters Toy.network) |})
    as (Hvs & _ & (Hret & _) & _).
  - vm_compute. reflexivity.
  - vm_compute. reflexivity.
  - vm_compute. reflexivity.
  - apply Hret. exists (of_int 1). split; [|reflexivity].
    rewrite Hvs. vm_compute. apply list_elem_of_here.
Defined.

(** The same run leaves the world as its second pass left it. *)
Lemma train_model_returns_last_pass_toy :
  let w := Toy.world0 7 [of_int 1; of_int 2] in
  exists steps,
    num_train_steps 10 5 2 = Ok steps /\
    Toy.network = Toy.network /\
    final (Toy.run 2 (Some 42) w)
      = final (epoch_loop Toy.network
                 (prepared_with Toy.network Toy.tag_encoder Toy.dataset Toy.dataset
                    "bert"%string 128 5 8 0 false (of_int 1) (seeded 42 w) steps)
                 tt 2 (toy_loop_start (Some 42) w)).
Proof.
  apply (train_model_returns_last_pass (C := Toy.collaborators) Toy.network
           Toy.tag_encoder Toy.dataset Toy.dataset "bert"%string 128 5 8 2 0 false
           (of_int 1) tt (Some 42) (Toy.world0 7 [of_int 1; of_int 2])
           (final (Toy.run 2 (Some 42) (Toy.world0 7 [of_int 1; of_int 2])))
           Toy.network [of_int 42; of_int 43]
           (events (Toy.run 2 (Some 42) (Toy.world0 7 [of_int 1; of_int 2])))).
  - apply NoDup_singleton.
  - vm_compute. reflexivity.
Defined.

(** Two epochs whose validation losses are NaN: both passes are made,
    then the run raises. *)
Lemma unbound_run_has_trained_toy :
  let r := Toy.run 2 None (Toy.world0 7 [nan; nan]) in
  length (train_losses_of (events r)) = 2%nat /\
  length (valid_losses_of (events r)) = 2%nat /\
  filter (fun ev => is_capture ev = true) (events r) = [] /\
  filter (fun ev => is_restore ev = true) (events r) = [].
Proof.
  destruct (unbound_run_has_trained (C := Toy.collaborators) Toy.network
              Toy.tag_encoder Toy.dataset Toy.dataset "bert"%string 128 5 8 2 0 false
              (of_int 1) tt None (Toy.world0 7 [nan; nan]))
    as (H1 & H2 & H3 & H4 & _).
  - vm_compute. reflexivity.
  - split_and!; assumption.
Defined.

(** Validation losses 1.0, 2.0 and 1.0 again: one capture, after the
    first pass. *)
Lemma first_epoch_kept_when_never_beaten_toy :
  let r := epoch_loop Toy.network
             (toy_prepared 3 None (Toy.world0 7 [of_int 1; of_int 2; of_int 1])) tt 3
             (toy_loop_start None (Toy.world0 7 [of_int 1; of_int 2; of_int 1])) in
  filter (fun ev => is_capture ev = true) (events r) = [EvStateDict].
Proof.
  intros r.
  destruct (first_epoch_kept_when_never_beaten (C := Toy.collaborators) Toy.network
              (toy_prepared 3 None (Toy.world0 7 [of_int 1; of_int 2; of_int 1])) tt 3
              (toy_loop_start None (Toy.world0 7 [of_int 1; of_int 2; of_int 1]))
              {| losses := [of_int 7; of_int 8; of_int 9]; best_loss := of_int 1;
                 best_parameters := Some (named_parameters Toy.network) |}
              (final r) (events r) (of_int 1) [of_int 2; of_int 1])
    as (_ & _ & Hcap).
  - vm_compute. reflexivity.
  - vm_compute. reflexivity.
  - reflexivity.
  - intros u [->|Hu]%elem_of_cons; [reflexivity|].
    apply list_elem_of_singleton in Hu as ->. reflexivity.
  - exact Hcap.
Defined.

(** Validation losses 3.0, 2.0 and 1.0: three captures. *)
Lemma every_epoch_captures_when_descending_toy :
  let r := epoch_loop Toy.network
             (toy_prepared 3 None (Toy.world0 7 [of_int 3; of_int 2; of_int 1])) tt 3
             (toy_loop_start None (Toy.world0 7 [of_int 3; of_int 2; of_int 1])) in
  filter (fun ev => is_capture ev = true) (events r) = replicate 3 EvStateDict.
Proof.
  intros r.
  destruct (every_epoch_captures_when_descending (C := Toy.collaborators) Toy.network
              (toy_prepared 3 None (Toy.world0 7 [of_int 3; of_int 2; of_int 1])) tt 3
              (toy_loop_start None (Toy.world0 7 [of_int 3; of_int 2; of_int 1]))
              {| losses := [of_int 7; of_int 8; of_int 9]; best_loss := of_int 1;
                 best_parameters := Some (named_parameters Toy.network) |}
              (final r) (events r))
    as (Hcap & _).
  - vm_compute. reflexivity.
  - vm_compute. reflexivity.
  - exact Hcap.
Defined.

(** The instance starts with [deterministic] cleared and [benchmark]
    set. After a run with the seed 42 it is the other way round, as
    after a run with the seed -1, which raises at line 27; after a run
    with the seed [2 ^ 64], which raises at line 17, the flags are as
    they were. *)
Lemma flags_stay_as_seeded_toy :
  let w := Toy.world0 7 [of_int 1; of_int 2] in
  flags w = (false, true) /\
  flags (final (Toy.run 2 (Some 42) w)) = (true, false) /\
  flags (final (Toy.run 2 (Some (-1)) w)) = (true, false) /\
  flags (final (Toy.run 2 (Some (2 ^ 64)) w)) = (false, true).
Proof.
  assert (forall seed,
            flags (final (Toy.run 2 (Some seed) (Toy.world0 7 [of_int 1; of_int 2]))) =
            if torch_seed_ok seed then (true, false) else (false, true)) as Hflags.
  { intros seed.
    apply (flags_stay_as_seeded (C := Toy.collaborators) Toy.network
             Toy.tag_encoder Toy.dataset Toy.dataset "bert"%string 128 5 8 2 0 false
             (of_int 1) tt (Some seed) (Toy.world0 7 [of_int 1; of_int 2]));
      intros; reflexivity. }
  split_and!; [reflexivity|apply (Hflags 42)|apply (Hflags (-1))|apply (Hflags (2 ^ 64))].
Defined.

(** The seed -1: torch, CUDA and [random] take it, numpy does not, and
    the run ends at line 27 with no loader built. *)
Lemma seed_refused_before_loaders_toy :
  let w := Toy.world0 7 [of_int 1; of_int 2] in
  Toy.run 2 (Some (-1)) w =
    (Raise ValueError, mkWorld (-1) (-1) (-1) 7 true false (store w) (ext w),
     [ EvTorchManualSeed (-1); EvCudaManualSeedAll (-1); EvSetCudnnDeterministic true;
       EvSetCudnnBenchmark false; EvRandomSeed (-1); EvNpRandomSeed (-1) ]).
Proof.
  destruct (seed_refused_before_loaders (C := Toy.collaborators) Toy.network
              Toy.tag_encoder Toy.dataset Toy.dataset "bert"%string 128 5 8 2 0 false
              (of_int 1) tt (-1) (Toy.world0 7 [of_int 1; of_int 2]))
    as (_ & Hnumpy & _).
  destruct Hnumpy as (Hrun & _); [left; lia|].
  exact Hrun.
Defined.
